(** * unix-tools-go: the directory lister [internal/ls]

    A shallow embedding of [internal/ls/ls.go] and [internal/ls/common.go]
    and the properties of the listing pipeline:
    read the directory, sort it, then either pack the icon-prefixed names in
    columns or print one detailed line per entry.

    Conventions of the embedding.
    - A Go [string] is a sequence of bytes: [String.string], one [ascii] per
      byte; [len] is [String.length], [<] is the bytewise order [strLess].
    - Go's [int], [int64] and [uint32] values are [Z]; where a value can leave
      its range the wrap-around is written out ([wrap64]).
    - A Go [(value, error)] pair is a [Result]; the error keeps its message.
    - What the program prints is the list of writes it performs, each tagged
      with the stream it goes to.
    - The operating system (directory contents, account database, clock,
      terminal) is a record [World] the functions read from.

    The two other tools of the repository, [internal/echo] and
    [internal/cat], are embedded after the lister, in the modules [Echo]
    and [Cat], with the same conventions. *)

From Stdlib Require Import ZArith Ascii String DecimalString Sorting.Sorted.
From Stdlib Require Import Floats.SpecFloat.
From stdpp Require Import base option list sorting gmap strings.

Local Open Scope string_scope.
Local Open Scope list_scope.
Local Open Scope Z_scope.

(** ** Go strings *)

Module GoString.

(** The byte at the head of a Go string, as a number in [0, 255]. *)
Definition code (c : ascii) : Z := Z.of_N (N_of_ascii c).

(** The byte of a number in [0, 255]. *)
Definition byte (n : Z) : ascii := ascii_of_N (Z.to_N n).

(** A string literal given by its bytes (the icons are multi-byte UTF-8). *)
Definition bytes (l : list Z) : string :=
  string_of_list_ascii (byte <$> l).

(** [len(s)] *)
Definition len (s : string) : Z := Z.of_nat (String.length s).

(** [a < b] on strings: bytewise lexicographic, a proper prefix is smaller. *)
Fixpoint strLess (a b : string) : bool :=
  match a, b with
  | _, EmptyString => false
  | EmptyString, String _ _ => true
  | String x a', String y b' =>
      if code x <? code y then true
      else if code y <? code x then false
      else strLess a' b'
  end.

(** [strings.ToLower] on one byte of an ASCII string: ['A'..'Z'] move to
    ['a'..'z'], every other byte stays. *)
Definition lowerByte (c : ascii) : ascii :=
  if (65 <=? code c) && (code c <=? 90) then byte (code c + 32) else c.

(** [strings.ToLower]. The library lower-cases ASCII strings byte by byte,
    which is this function; names are taken in that range, and a byte from
    128 up is left as it is. *)
Fixpoint ToLower (s : string) : string :=
  match s with
  | EmptyString => EmptyString
  | String c s' => String (lowerByte c) (ToLower s')
  end.

(** The loop of [filepath.Ext], which walks the path from its last byte
    down: [rest] holds the bytes not yet visited, nearest first, and
    [suffix] the bytes already passed.
<<
    for i := len(path) - 1; i >= 0 && !os.IsPathSeparator(path[i]); i-- {
        if path[i] == '.' { return path[i:] }
    }
>>
    and returns the empty string when the loop ends. *)
Fixpoint extScan (rest : list ascii) (suffix : string) : string :=
  match rest with
  | [] => EmptyString
  | c :: rest' =>
      if Ascii.eqb c "/" then EmptyString
      else if Ascii.eqb c "." then String c suffix
      else extScan rest' (String c suffix)
  end.

(** [filepath.Ext] *)
Definition Ext (path : string) : string :=
  extScan (reverse (list_ascii_of_string path)) EmptyString.

(** The padding [fmt] writes: [n] spaces, none when [n <= 0]. *)
Definition spaces (n : Z) : string :=
  string_of_list_ascii (replicate (Z.to_nat n) " "%char).

(** The line feed that ends every line. *)
Definition nl : string := String (byte 10) EmptyString.

(** The UTF-8 encoding of a code point: the source file is UTF-8 and its
    icon literals are single private-use code points. *)
Definition utf8 (cp : Z) : string :=
  if cp <? 0x80 then bytes [cp]
  else if cp <? 0x800 then
    bytes [0xC0 + cp / 64; 0x80 + cp mod 64]
  else if cp <? 0x10000 then
    bytes [0xE0 + cp / 4096; 0x80 + (cp / 64) mod 64; 0x80 + cp mod 64]
  else
    bytes [0xF0 + cp / 262144; 0x80 + (cp / 4096) mod 64;
           0x80 + (cp / 64) mod 64; 0x80 + cp mod 64].

(** An icon literal: the code point followed by one space. *)
Definition glyph (cp : Z) : string := utf8 cp +:+ " ".

(** [utf8.RuneCountInString] looks at the bytes at the current position
    and advances by the size of the encoding found there: one byte for
    ASCII, for a byte that cannot start an encoding, for an encoding cut
    short by the end of the string and for one with a bad continuation
    byte. [runeSize] is that size. *)
Definition runeSize (bs : list Z) : nat :=
  match bs with
  | [] => 1%nat
  | c :: rest =>
      if (c <? 0xC2) || (0xF4 <? c) then 1%nat
      else
        let size := if c <? 0xE0 then 2%nat else if c <? 0xF0 then 3%nat else 4%nat in
        let lo := if c =? 0xE0 then 0xA0 else if c =? 0xF0 then 0x90 else 0x80 in
        let hi := if c =? 0xED then 0x9F else if c =? 0xF4 then 0x8F else 0xBF in
        if (length bs <? size)%nat then 1%nat
        else
          match rest with
          | c1 :: rest1 =>
              if (c1 <? lo) || (hi <? c1) then 1%nat
              else if (size =? 2)%nat then 2%nat
              else
                match rest1 with
                | c2 :: rest2 =>
                    if (c2 <? 0x80) || (0xBF <? c2) then 1%nat
                    else if (size =? 3)%nat then 3%nat
                    else
                      match rest2 with
                      | c3 :: _ =>
                          if (c3 <? 0x80) || (0xBF <? c3) then 1%nat else 4%nat
                      | [] => 1%nat
                      end
                | [] => 1%nat
                end
          | [] => 1%nat
          end
  end.

(** The counting loop: [skip] bytes remain of the encoding being passed. *)
Fixpoint runeCountFrom (skip : nat) (bs : list Z) : Z :=
  match bs with
  | [] => 0
  | _ :: rest =>
      match skip with
      | S k => runeCountFrom k rest
      | O => 1 + runeCountFrom (pred (runeSize bs)) rest
      end
  end.

(** [utf8.RuneCountInString] *)
Definition RuneCountInString (s : string) : Z :=
  runeCountFrom 0 (code <$> list_ascii_of_string s).

(** [fmt], verb [%-*s]: the string, then spaces up to [wid] runes. A
    width above 1e6 is refused by [fmt], which then prints a marker and
    the string unpadded. *)
Definition padRight (wid : Z) (s : string) : string :=
  if 1000000 <? wid then "%!(BADWIDTH)" +:+ s
  else s +:+ spaces (wid - RuneCountInString s).

(** [fmt], verb [%4d] and the like: spaces up to [wid] runes, then the
    digits. *)
Definition padLeft (wid : Z) (s : string) : string :=
  spaces (wid - RuneCountInString s) +:+ s.

(** [fmt.Sprint] of an integer: its decimal digits, with a sign when
    negative. *)
Definition itoa (n : Z) : string := NilZero.string_of_int (Z.to_int n).

End GoString.
Import GoString.

(** ** Integers *)

(** An [int64] after an addition: the value modulo [2^64], read as signed. *)
Definition wrap64 (z : Z) : Z := (z + 2^63) mod 2^64 - 2^63.

(** ** Results, output and the monad of the program *)

(** A Go [(value, error)] pair: [Err] carries [err.Error()]. *)
Inductive Result (A : Type) : Type :=
| Ok (a : A)
| Err (msg : string).
Arguments Ok {A} a.
Arguments Err {A} msg.

Inductive Stream : Type := Stdout | Stderr.

(** One call of [fmt.Printf], [fmt.Println] or [fmt.Fprintf]. *)
Definition Write : Type := Stream * string.
Definition Output : Type := list Write.

(** A piece of the program reads the clock, prints, and may panic. It is
    run from the number of clock readings made so far and gives its result,
    what it printed and the new number of readings; [None] is a run-time
    panic. *)
Definition M (A : Type) : Type := nat -> option (A * Output * nat).

#[global] Instance M_ret : MRet M := fun A a n => Some (a, [], n).

#[global] Instance M_bind : MBind M := fun A B f m n =>
  match m n with
  | None => None
  | Some (a, out1, n1) =>
      match f a n1 with
      | None => None
      | Some (b, out2, n2) => Some (b, out1 ++ out2, n2)
      end
  end.

Definition write (s : Stream) (text : string) : M unit :=
  fun n => Some (tt, [(s, text)], n).

Definition panic {A : Type} : M A := fun _ => None.

(** [for _, x := range xs { body(x) }] *)
Fixpoint forEach {A : Type} (xs : list A) (body : A -> M unit) : M unit :=
  match xs with
  | [] => mret tt
  | x :: xs' => body x ≫= fun _ => forEach xs' body
  end.

(** Integer division and remainder truncate toward zero and panic on a zero
    divisor. *)
Definition goQuo (a b : Z) : M Z :=
  if b =? 0 then panic else mret (Z.quot a b).

Definition goRem (a b : Z) : M Z :=
  if b =? 0 then panic else mret (Z.rem a b).

(** What a run printed, [None] if it panicked. *)
Definition output {A : Type} (m : M A) : option Output :=
  match m 0%nat with
  | Some (_, out, _) => Some out
  | None => None
  end.

(** The text that reached one stream. *)
Definition textOn (s : Stream) (out : Output) : string :=
  foldr (fun w acc =>
           match w with
           | (Stdout, t) => match s with Stdout => t +:+ acc | Stderr => acc end
           | (Stderr, t) => match s with Stderr => t +:+ acc | Stdout => acc end
           end) EmptyString out.

(** ** The file system as the program sees it *)

(** [syscall.Stat_t], the fields the program reads. *)
Record Stat_t : Type := {
  Nlink : Z;    (* uint64 *)
  Uid : Z;      (* uint32 *)
  Gid : Z;      (* uint32 *)
  Blocks : Z    (* int64, in units of 512 bytes *)
}.

(** [fs.FileInfo]. [Mode] is the 32-bit [fs.FileMode]; [ModTime] is an
    instant in nanoseconds. *)
Record FileInfo : Type := {
  Mode : Z;
  Size : Z;
  ModTime : Z;
  Sys : Stat_t
}.

(** [os.DirEntry]. [Info] is what [entry.Info()] returns; the directory is
    not changed while it is listed, so every call returns the same. *)
Record DirEntry : Type := {
  Name : string;
  IsDir : bool;
  Info : Result FileInfo
}.

(** The operating system around one run.
    - [ReadDir] is [os.ReadDir].
    - [LookupId] and [LookupGroupId] are [user.LookupId] and
      [user.LookupGroupId], giving the [Username] and the group [Name].
    - [Clock k] is what the [k]-th call of [time.Now] returns, in
      nanoseconds.
    - [GetSize] is the width [term.GetSize] reports, or its error.
    - [Format t layout] is [Time.Format] in the local time zone. *)
Record World : Type := {
  ReadDir : string -> Result (list DirEntry);
  LookupId : string -> Result string;
  LookupGroupId : string -> Result string;
  Clock : nat -> Z;
  GetSize : Result Z;
  Format : Z -> string -> string
}.

(** [time.Now()] *)
Definition timeNow (w : World) : M Z :=
  fun n => Some (Clock w n, [], S n).

(** ** [sort.Slice] *)

Module GoSort.
Section Slice.
Context {A : Type} (less : A -> A -> bool).

(** The inner loop of the library's insertion sort, which moves the new
    element toward the front while it is [less] than its neighbour:
<<
    for j := i; j > a && data.Less(j, j-1); j-- { data.Swap(j, j-1) }
>>
    [before] is the part of the slice in front of the element, nearest
    neighbour first. *)
Fixpoint sink (x : A) (before : list A) : list A :=
  match before with
  | [] => [x]
  | y :: before' => if less x y then y :: sink x before' else x :: before
  end.

(** The outer loop takes the elements in slice order. *)
Definition insertionSort (data : list A) : list A :=
  reverse (foldl (fun before x => sink x before) [] data).

(** [sort.Slice(data, less)] is library code. On a slice of at most 12
    elements it is this insertion sort; on a longer one it partitions
    first, which gives a permutation in ascending order of [less] as
    well but may exchange elements that [less] does not separate. The
    model is the insertion sort at every length. *)
Definition Slice (data : list A) : list A := insertionSort data.

(** [ascending l]: no element is [less] than one in front of it, which
    is what [sort.Slice] promises of its result. *)
Definition ascending (l : list A) : Prop :=
  StronglySorted (fun a b => less b a = false) l.

(** The same for a list held back to front. *)
Definition descending (l : list A) : Prop :=
  StronglySorted (fun a b => less a b = false) l.
End Slice.
End GoSort.

(** ** Icons ([common.go]) *)

Definition iconTable : list (string * string) :=
    [ (".md",      glyph 0xf0354);
      (".txt",     glyph 0xf15c);
      (".doc",     glyph 0xf022c);
      (".docx",    glyph 0xf022c);
      (".pdf",     glyph 0xe67d);
      (".xls",     glyph 0xf021b);
      (".xlsx",    glyph 0xf021b);
      (".ppt",     glyph 0xf0227);
      (".pptx",    glyph 0xf0227);
      (".rtf",     glyph 0xf15c);
      (".odt",     glyph 0xf022c);
      (".ods",     glyph 0xf021b);
      (".odp",     glyph 0xf0227);
      (".csv",     glyph 0xe64a);
      (".tsv",     glyph 0xe64a);
      (".html",    glyph 0xe60e);
      (".htm",     glyph 0xe60e);
      (".xml",     glyph 0xf05c0);
      (".xhtml",   glyph 0xf05c0);
      (".css",     glyph 0xe749);
      (".js",      glyph 0xf2ef);
      (".json",    glyph 0xeb0f);
      (".php",     glyph 0xe608);
      (".jsp",     glyph 0xe66d);
      (".java",    glyph 0xe738);
      (".py",      glyph 0xf0320);
      (".rb",      glyph 0xf0d2d);
      (".cpp",     glyph 0xf0672);
      (".c",       glyph 0xe61e);
      (".cs",      glyph 0xe7b2);
      (".go",      glyph 0xe65e);
      (".swift",   glyph 0xe699);
      (".kt",      glyph 0xe634);
      (".sql",     glyph 0xf472);
      (".db",      glyph 0xf472);
      (".sqlite",  glyph 0xf472);
      (".bak",     glyph 0xf006f);
      (".log",     glyph 0xf1085);
      (".sh",      glyph 0xe760);
      (".bat",     glyph 0xebc4);
      (".ps1",     glyph 0xe86c);
      (".pl",      glyph 0xe67e);
      (".r",       glyph 0xe881);
      (".jar",     glyph 0xe738);
      (".war",     glyph 0xe738);
      (".ear",     glyph 0xe738);
      (".exe",     glyph 0xf0a21);
      (".dll",     glyph 0xf0a21);
      (".sys",     glyph 0xf0a21);
      (".msi",     glyph 0xf0a21);
      (".deb",     glyph 0xe77d);
      (".rpm",     glyph 0xef5d);
      (".apk",     glyph 0xf0032);
      (".ipa",     glyph 0xf0be);
      (".iso",     glyph 0xf0be);
      (".img",     glyph 0xf0a23);
      (".bin",     glyph 0xeae8);
      (".cue",     utf8 0xf153c);
      (".vhd",     glyph 0xf02ca);
      (".vmdk",    glyph 0xf02ca);
      (".dmg",     glyph 0xf02ca);
      (".zip",     glyph 0xf0ffa);
      (".rar",     glyph 0xf0ffa);
      (".7z",      glyph 0xf0ffa);
      (".tar",     glyph 0xf0ffa);
      (".gz",      glyph 0xf0ffa);
      (".bz2",     glyph 0xf0ffa);
      (".xz",      glyph 0xf0ffa);
      (".zst",     glyph 0xf0ffa);
      (".cpio",    glyph 0xf0ffa);
      (".mp3",     glyph 0xf147d);
      (".wav",     glyph 0xf147d);
      (".flac",    glyph 0xf147d);
      (".aac",     glyph 0xf147d);
      (".ogg",     glyph 0xf147d);
      (".wma",     glyph 0xf147d);
      (".m4a",     glyph 0xf147d);
      (".aiff",    glyph 0xf147d);
      (".avi",     glyph 0xf022b);
      (".mp4",     glyph 0xf022b);
      (".mkv",     glyph 0xf022b);
      (".mov",     glyph 0xf022b);
      (".wmv",     glyph 0xf022b);
      (".flv",     glyph 0xf022b);
      (".mpeg",    glyph 0xf022b);
      (".mpg",     glyph 0xf022b);
      (".m4v",     glyph 0xf022b);
      (".3gp",     glyph 0xf022b);
      (".3g2",     glyph 0xf022b);
      (".swf",     glyph 0xf1c8);
      (".vob",     glyph 0xf022b);
      (".svg",     glyph 0xf0560);
      (".png",     glyph 0xf1c5);
      (".jpg",     glyph 0xf1c5);
      (".jpeg",    glyph 0xf1c5);
      (".gif",     glyph 0xf1c5);
      (".bmp",     glyph 0xf1c5);
      (".tiff",    glyph 0xf1c5);
      (".ico",     glyph 0xf1c5);
      (".heic",    glyph 0xf1c5);
      (".psd",     glyph 0xe67f);
      (".ai",      glyph 0xe669);
      (".sketch",  glyph 0xf027c);
      (".xcf",     glyph 0xf338);
      (".raw",     glyph 0xf1a0f);
      (".cdr",     glyph 0xf01de);
      (".tex",     glyph 0xe81f);
      (".cfg",     glyph 0xeb51);
      (".ini",     glyph 0xeb51);
      (".conf",    glyph 0xeb51);
      (".env",     glyph 0xeb51);
      (".cmd",     EmptyString);
      (".reg",     glyph 0xeb51);
      (".vcf",     glyph 0xf2b9);
      (".ics",     glyph 0xf073);
      (".mobi",    glyph 0xede2);
      (".epub",    glyph 0xede2);
      (".azw",     glyph 0xede2);
      (".ttf",     glyph 0xe659);
      (".otf",     glyph 0xe659);
      (".fon",     glyph 0xe659);
      (".mht",     glyph 0xf059f);
      (".mhtml",   glyph 0xf059f);
      (".part",    glyph 0xf1462);
      (".tmp",     glyph 0xf509);
      (".desktop", glyph 0xe615);
      (".service", glyph 0xe615);
      (".ko",      glyph 0xe712);
      (".run",     glyph 0xeb7b) ].

(** [iconMap], the map literal of [common.go]. *)
Definition iconMap : gmap string string := list_to_map iconTable.

Definition getIcon (ext : string) : string :=
  match iconMap !! ext with
  | Some icon => icon
  | None => glyph 0xea7b
  end.

(** [getFileNameWithIcon] returns a filename prefixed with an icon based on
    its type. *)
Definition getFileNameWithIcon (entry : DirEntry) : string :=
  if IsDir entry then glyph 0xe5ff +:+ Name entry
  else
    let ext := ToLower (Ext (Name entry)) in
    if (Name entry =? "go.mod")%string || (Name entry =? "go.sum")%string then
      glyph 0xf07d3 +:+ Name entry
    else if (Name entry =? "Dockerfile")%string
            || (Name entry =? "docker-compose.yml")%string
            || (Name entry =? ".dockerignore")%string then
      glyph 0xf21f +:+ Name entry
    else if (Name entry =? "cargo.toml")%string then
      glyph 0xe68b +:+ Name entry
    else if (Name entry =? ".github")%string || (Name entry =? ".gitignore")%string then
      glyph 0xf1d3 +:+ Name entry
    else if (Name entry =? "Makefile")%string then
      glyph 0xe673 +:+ Name entry
    else getIcon ext +:+ Name entry.

(** *** The classifier as the specification words it

    An ordered list of rules, each an exact-name predicate or a
    lowercase-extension predicate bound to a symbol; the first match wins. *)

Inductive IconRule : Type :=
| ExactName (name symbol : string)
| ExtensionIs (ext symbol : string).

Definition ruleSymbol (name ext : string) (r : IconRule) : option string :=
  match r with
  | ExactName n symbol => if (name =? n)%string then Some symbol else None
  | ExtensionIs e symbol => if (ext =? e)%string then Some symbol else None
  end.

Fixpoint firstMatch (name ext : string) (rules : list IconRule) : option string :=
  match rules with
  | [] => None
  | r :: rules' =>
      match ruleSymbol name ext r with
      | Some symbol => Some symbol
      | None => firstMatch name ext rules'
      end
  end.

Definition directorySymbol : string := glyph 0xe5ff.
Definition fallbackSymbol : string := glyph 0xea7b.

Definition exactNameRules : list IconRule :=
  [ ExactName "go.mod" (glyph 0xf07d3);
    ExactName "go.sum" (glyph 0xf07d3);
    ExactName "Dockerfile" (glyph 0xf21f);
    ExactName "docker-compose.yml" (glyph 0xf21f);
    ExactName ".dockerignore" (glyph 0xf21f);
    ExactName "cargo.toml" (glyph 0xe68b);
    ExactName ".github" (glyph 0xf1d3);
    ExactName ".gitignore" (glyph 0xf1d3);
    ExactName "Makefile" (glyph 0xe673) ].

Definition extensionRules : list IconRule :=
  (fun row => ExtensionIs row.1 row.2) <$> iconTable.

(** [classify name ext is_directory], with [ext] the lowercased extension. *)
Definition classify (name ext : string) (is_directory : bool) : string :=
  if is_directory then directorySymbol
  else
    match firstMatch name ext (exactNameRules ++ extensionRules) with
    | Some symbol => symbol
    | None => fallbackSymbol
    end.

(** The names the exact-name rules list and the symbols they give. *)
Definition exactNames : list string :=
  [ "go.mod"; "go.sum"; "Dockerfile"; "docker-compose.yml"; ".dockerignore";
    "cargo.toml"; ".github"; ".gitignore"; "Makefile" ].

Definition exactSymbols : list string :=
  [ glyph 0xf07d3; glyph 0xf21f; glyph 0xe68b; glyph 0xf1d3; glyph 0xe673 ].

(** ** [time.Duration] and [float64] *)

Module GoTime.

(** A [float64] is an IEEE 754 binary64 number, [spec_float] with 53 bits
    of precision; the operations round to nearest, ties to even. *)
Definition f64add : spec_float -> spec_float -> spec_float := SFadd 53 1024.
Definition f64div : spec_float -> spec_float -> spec_float := SFdiv 53 1024.

(** The conversion [float64(n)] of an integer. *)
Definition float64 (n : Z) : spec_float := binary_normalize 53 1024 n 0 false.

(** [x > y] on [float64]. *)
Definition f64gt (x y : spec_float) : bool := SFltb y x.

(** A [Duration] is an [int64] count of nanoseconds. *)
Definition minDuration : Z := - 2^63.
Definition maxDuration : Z := 2^63 - 1.
Definition Hour : Z := 60 * 60 * 1000000000.

(** [t.Sub(u)]: the difference of two instants, or the nearest
    [Duration] when it does not fit. *)
Definition Sub (t u : Z) : Z :=
  if t - u <? minDuration then minDuration
  else if maxDuration <? t - u then maxDuration
  else t - u.

(** [d.Hours()]:
<<
    hour := d / Hour
    nsec := d % Hour
    return float64(hour) + float64(nsec)/(60*60*1e9)
>> *)
Definition Hours (d : Z) : spec_float :=
  let hour := Z.quot d Hour in
  let nsec := Z.rem d Hour in
  f64add (float64 hour) (f64div (float64 nsec) (float64 3600000000000)).

End GoTime.
Import GoTime.

(** ** [fs.FileMode] *)

Definition ModeDir : Z := 2^31.
Definition ModePerm : Z := 0x1ff.

(** [m.Perm()] *)
Definition Perm (m : Z) : Z := Z.land m ModePerm.

(** [m.IsDir()] *)
Definition FileMode_IsDir (m : Z) : bool := negb (Z.land m ModeDir =? 0).

(** The characters [FileMode.String] writes for the bits set among [chars],
    the first of which stands for bit [top], the next for [top - 1], ... *)
Fixpoint setBits (m : Z) (top : Z) (chars : list ascii) : list ascii :=
  match chars with
  | [] => []
  | c :: chars' =>
      (if Z.testbit m top then [c] else []) ++ setBits m (top - 1) chars'
  end.

(** One character per bit, ['-'] for a bit that is clear. *)
Fixpoint rwxBits (m : Z) (top : Z) (chars : list ascii) : list ascii :=
  match chars with
  | [] => []
  | c :: chars' =>
      (if Z.testbit m top then c else "-"%char) :: rwxBits m (top - 1) chars'
  end.

(** [m.String()] *)
Definition FileMode_String (m : Z) : string :=
  let types := setBits m 31 (list_ascii_of_string "dalTLDpSugct?") in
  let types := match types with [] => ["-"%char] | _ => types end in
  string_of_list_ascii (types ++ rwxBits m 8 (list_ascii_of_string "rwxrwxrwx")).

(** [s[1:]], which panics on the empty string. *)
Definition sliceFrom1 (s : string) : M string :=
  match s with
  | EmptyString => panic
  | String _ rest => mret rest
  end.

(** ** The listing ([ls.go]) *)

(** [printTotalBlocks] calculates and prints the total number of disk blocks
    used by the files. *)
Definition printTotalBlocks (entries : list DirEntry) : M unit :=
  let totalBlocks :=
    foldl (fun totalBlocks entry =>
             match Info entry with
             | Err _ => totalBlocks
             | Ok info => wrap64 (totalBlocks + Blocks (Sys info))
             end) 0 entries in
  write Stdout ("total " +:+ itoa (Z.quot totalBlocks 2) +:+ nl).

(** The layout the modification time is printed with, from the time since
    it:
<<
    timeFormat := "Jan _2 15:04"
    if time.Since(info.ModTime()).Hours() > 6*30*24 {
        timeFormat = "Jan _2 2006"
    }
>> *)
Definition timeFormat (age : Z) : string :=
  if f64gt (Hours age) (float64 (6 * 30 * 24)) then "Jan _2 2006" else "Jan _2 15:04".

(** The line [fmt.Printf("%s %d %s %s %4d %s %s\n", ...)] writes. *)
Definition detailLine (perms : string) (nlink : Z) (owner group : string)
    (size : Z) (mtime name : string) : string :=
  perms +:+ " " +:+ itoa nlink +:+ " " +:+ owner +:+ " " +:+ group +:+ " "
  +:+ padLeft 4 (itoa size) +:+ " " +:+ mtime +:+ " " +:+ name +:+ nl.

(** [printDetailedEntry] prints a detailed listing for a single file. *)
Definition printDetailedEntry (w : World) (entry : DirEntry) : M unit :=
  match Info entry with
  | Err err =>
      write Stdout ("ls: error reading file info for " +:+ Name entry
                    +:+ ": " +:+ err +:+ nl)
  | Ok info =>
      let stat := Sys info in
      let perms := FileMode_String (Perm (Mode info)) in
      rest ← sliceFrom1 perms;
      let perms := if FileMode_IsDir (Mode info) then "d" +:+ rest else "-" +:+ rest in
      let uid := itoa (Uid stat) in
      let gid := itoa (Gid stat) in
      let usr := match LookupId w uid with Ok name => name | Err _ => uid end in
      let grp := match LookupGroupId w gid with Ok name => name | Err _ => gid end in
      now ← timeNow w;
      let layout := timeFormat (Sub now (ModTime info)) in
      write Stdout (detailLine perms (Nlink stat) usr grp (Size info)
                      (Format w (ModTime info) layout)
                      (getFileNameWithIcon entry))
  end.

(** The first loop of [printMultiColumn]: the rendered names and the length
    of the longest. *)
Definition collectNames (entries : list DirEntry) : list string * Z :=
  foldl (fun acc entry =>
           let name := getFileNameWithIcon entry in
           (acc.1 ++ [name], if acc.2 <? len name then len name else acc.2))
        ([], 0) entries.

(** The second loop, from index [i]; [n] is [len(names)]. *)
Fixpoint printNames (colWidth cols n i : Z) (names : list string) : M unit :=
  match names with
  | [] => mret tt
  | name :: names' =>
      _ ← write Stdout (padRight colWidth name);
      r ← goRem (i + 1) cols;
      _ ← (if (r =? 0) || (i =? n - 1) then write Stdout nl else mret tt);
      printNames colWidth cols n (i + 1) names'
  end.

(** The terminal width the layout works with. *)
Definition layoutWidth (w : World) : Z :=
  match GetSize w with
  | Err _ => 80
  | Ok width => if width <? 20 then 80 else width
  end.

(** The number of columns:
<<
    cols := width / colWidth
    if cols == 0 { cols = 1 }
>> *)
Definition columnCount (width colWidth : Z) : M Z :=
  cols ← goQuo width colWidth;
  mret (if cols =? 0 then 1 else cols).

(** [printMultiColumn] arranges file entries into a multi-column layout
    based on the terminal width. *)
Definition printMultiColumn (w : World) (entries : list DirEntry) : M unit :=
  let width := layoutWidth w in
  let '(names, maxLen) := collectNames entries in
  let colWidth := maxLen + 2 in
  cols ← columnCount width colWidth;
  printNames colWidth cols (Z.of_nat (length names)) 0 names.

(** The comparison [Run] sorts with. *)
Definition lessName (a b : DirEntry) : bool :=
  strLess (ToLower (Name a)) (ToLower (Name b)).

(** The directory [Run] lists:
<<
    dir := "."
    if fs.NArg() > 0 { dir = fs.Arg(0) }
>> *)
Definition targetDir (args : list string) : string :=
  match args with [] => "." | arg0 :: _ => arg0 end.

(** [Run] executes the ls command. [longFormat] is the flag [-l] and [args]
    the arguments after the flags, as the [flag] package parsed them. *)
Definition Run (w : World) (longFormat : bool) (args : list string) : M unit :=
  let dir := targetDir args in
  match ReadDir w dir with
  | Err err =>
      write Stderr ("ls: cannot access '" +:+ dir +:+ "': " +:+ err +:+ nl)
  | Ok entries =>
      let entries := GoSort.Slice lessName entries in
      if longFormat then
        _ ← printTotalBlocks entries;
        forEach entries (printDetailedEntry w)
      else printMultiColumn w entries
  end.

(** ** Vocabulary of the statements *)


(** The length of the longest of the names, 0 when there is none. *)
Definition longest (names : list string) : Z :=
  foldr (fun name m => Z.max (len name) m) 0 names.

(** The block counts of the entries whose [Info] succeeds, and their sum. *)
Definition okBlocks (entries : list DirEntry) : list Z :=
  omap (fun entry =>
          match Info entry with
          | Ok info => Some (Blocks (Sys info))
          | Err _ => None
          end) entries.

Definition sumBlocks (entries : list DirEntry) : Z :=
  foldr Z.add 0 (okBlocks entries).

(** The nine permission characters of a mode. *)
Definition rwxString (mode : Z) : string :=
  string_of_list_ascii (rwxBits (Perm mode) 8 (list_ascii_of_string "rwxrwxrwx")).

(** The ten characters of the permission column. *)
Definition permString (mode : Z) : string :=
  (if FileMode_IsDir mode then "d" else "-") +:+ rwxString mode.

(** The owner and group columns: the account name, or the id in decimal
    when the lookup fails. *)
Definition ownerName (w : World) (uid : Z) : string :=
  match LookupId w (itoa uid) with Ok name => name | Err _ => itoa uid end.

Definition groupName (w : World) (gid : Z) : string :=
  match LookupGroupId w (itoa gid) with Ok name => name | Err _ => itoa gid end.

(** The line of an entry whose [Info] fails. *)
Definition infoErrorLine (name err : string) : string :=
  "ls: error reading file info for " +:+ name +:+ ": " +:+ err +:+ nl.

(** The header line of the long format. *)
Definition totalLine (blocks : Z) : string := "total " +:+ itoa blocks +:+ nl.

(** ** The earlier revision of [ls.go]

    The second revision held in [ls.go] sorts by the bytes of the names and
    carries its own icon switch, with the exact names and the extensions in
    one list of cases. *)

Module Legacy.

(** The comparison the earlier [Run] sorts with. *)
Definition lessName (a b : DirEntry) : bool := strLess (Name a) (Name b).

(** [ext == e1 || ext == e2 || ...] *)
Definition extIn (ext : string) (exts : list string) : bool :=
  existsb (String.eqb ext) exts.

(** [getFileNameWithIcon] of the earlier revision. *)
Definition getFileNameWithIcon (entry : DirEntry) : string :=
  let name := Name entry in
  if IsDir entry then glyph 0xe5ff +:+ name
  else
    let ext := ToLower (Ext name) in
    if (ext =? ".go")%string || (name =? "go.mod")%string || (name =? "go.sum")%string
    then glyph 0xf07d3 +:+ name
    else if (name =? "Dockerfile")%string || (name =? "docker-compose.yml")%string
            || (name =? ".dockerignore")%string
    then glyph 0xf21f +:+ name
    else if (ext =? ".rs")%string || (name =? "cargo.toml")%string
    then glyph 0xe68b +:+ name
    else if (ext =? ".md")%string then glyph 0xf48a +:+ name
    else if (ext =? ".json")%string then glyph 0xe60b +:+ name
    else if (ext =? ".toml")%string then glyph 0xe6b2 +:+ name
    else if (ext =? ".css")%string then glyph 0xe749 +:+ name
    else if (ext =? ".html")%string then glyph 0xe60e +:+ name
    else if (ext =? ".js")%string then glyph 0xe74e +:+ name
    else if (ext =? ".pdf")%string then glyph 0xeaeb +:+ name
    else if (ext =? ".txt")%string then glyph 0xf09a8 +:+ name
    else if (ext =? ".git")%string || (ext =? ".github")%string
            || (name =? ".gitignore")%string
    then glyph 0xf1d3 +:+ name
    else if extIn ext [".png"; ".jpg"; ".jpeg"; ".gif"; ".bmp"; ".svg"]
    then glyph 0xf03e +:+ name
    else if extIn ext [".mp4"; ".mkv"; ".avi"; ".mov"; ".wmv"]
    then glyph 0xf00fd +:+ name
    else if extIn ext [".mp3"; ".wav"; ".flac"; ".ogg"; ".aac"]
    then glyph 0xf001 +:+ name
    else if extIn ext [".zip"; ".tar"; ".gz"; ".rar"; ".7z"]
    then glyph 0xf1c6 +:+ name
    else if extIn ext [".doc"; ".docx"] then glyph 0xf15c +:+ name
    else if extIn ext [".xls"; ".xlsx"] then glyph 0xe6a6 +:+ name
    else if extIn ext [".ppt"; ".pptx"] then glyph 0xf1390 +:+ name
    else if (ext =? ".sh")%string then glyph 0xe760 +:+ name
    else if extIn ext [".c"; ".cpp"; ".h"; ".hpp"] then glyph 0xe61e +:+ name
    else if (ext =? ".py")%string then glyph 0xe606 +:+ name
    else if (ext =? ".java")%string then glyph 0xe738 +:+ name
    else if (name =? "Makefile")%string then glyph 0xe673 +:+ name
    else glyph 0xf15b +:+ name.

End Legacy.

(** ** Vocabulary of the rounding of [float64] *)

Module Rounding.

(** The integer part of [N/D] with the two bits that say where the rest
    lies against one half. *)
Definition place (N D : Z) : shr_record :=
  {| shr_m := N / D;
     shr_r := D <=? 2 * (N mod D);
     shr_s := negb ((N mod D =? 0) || (2 * (N mod D) =? D)) |}.

(** [N/D] rounded to the nearest integer, a tie going to the even one. *)
Definition rne (N D : Z) : Z :=
  if 2 * (N mod D) <? D then N / D
  else if D <? 2 * (N mod D) then N / D + 1
  else if Z.even (N / D) then N / D else N / D + 1.

(** The [float64] nearest to [(N/D) * 2^e], for [N/D] of 53 bits or more. *)
Definition rounded (N D e : Z) : spec_float :=
  let n := Zdigits2 (N / D) - 53 in
  let m := rne N (D * 2^n) in
  if m =? 2^53 then S754_finite false (Z.to_pos (2^52)) (e + n + 1)
  else S754_finite false (Z.to_pos m) (e + n).

(** Zero, a negative number, or not a number. *)
Definition notPositive (x : spec_float) : bool :=
  match x with
  | S754_finite false _ _ | S754_infinity false => false
  | _ => true
  end.

End Rounding.
Import Rounding.

(** ** A small world to run the program in *)

Module Sample.

Definition info (mode size nlink uid gid blocks : Z) : FileInfo :=
  {| Mode := mode; Size := size; ModTime := 0;
     Sys := {| Nlink := nlink; Uid := uid; Gid := gid; Blocks := blocks |} |}.

Definition file (name : string) (i : FileInfo) : DirEntry :=
  {| Name := name; IsDir := false; Info := Ok i |}.

Definition dir (name : string) (i : FileInfo) : DirEntry :=
  {| Name := name; IsDir := true; Info := Ok i |}.

(** An entry that was removed after the directory was read. *)
Definition gone (name : string) : DirEntry :=
  {| Name := name; IsDir := false;
     Info := Err ("lstat " +:+ name +:+ ": no such file or directory") |}.

(** Only the directory ["."] exists and holds [entries]; the only account
    is root, id 0; the terminal is [width] columns wide; the clock stands
    at [now]; [Format] stands in for the calendar and shows the layout it
    was given. *)
Definition world (entries : list DirEntry) (width : Result Z) (now : Z) : World :=
  {| ReadDir := fun d =>
       if (d =? ".")%string then Ok entries
       else Err ("open " +:+ d +:+ ": no such file or directory");
     LookupId := fun uid =>
       if (uid =? "0")%string then Ok "root"
       else Err ("user: unknown userid " +:+ uid);
     LookupGroupId := fun gid =>
       if (gid =? "0")%string then Ok "root"
       else Err ("group: unknown groupid " +:+ gid);
     Clock := fun _ => now;
     GetSize := width;
     Format := fun _ layout => layout |}.

(** The directory of the specification's scenario. *)
Definition scenario : list DirEntry :=
  [ file "A.md" (info 0x1a4 120 1 0 0 8);
    dir "D" (info (2^31 + 0x1ed) 4096 2 0 0 8);
    file "b.TXT" (info 0x1a4 5 1 0 0 8);
    file "c" (info 0x1a4 0 1 0 0 0) ].

(** A regular file whose owner and group have no account. *)
Definition orphan : DirEntry := file "notes" (info 0x1a4 42 1 9999 9999 8).

End Sample.

(** ** Vocabulary of the grid *)

(** The names in rows of [cols], the last row holding what is left; [fuel]
    bounds the number of rows. *)
Fixpoint rowsOf (fuel cols : nat) (names : list string) : list (list string) :=
  match fuel, names with
  | S fuel', _ :: _ => take cols names :: rowsOf fuel' cols (drop cols names)
  | _, _ => []
  end.

Definition gridRows (cols : Z) (names : list string) : list (list string) :=
  rowsOf (length names) (Z.to_nat cols) names.

(** What one row is printed as: a cell for each name, then the line feed. *)
Definition rowWrites (colWidth : Z) (row : list string) : Output :=
  ((fun name => (Stdout, padRight colWidth name)) <$> row) ++ [(Stdout, nl)].

(** ** The echo tool ([internal/echo]) *)

Module Echo.

(** [strings.Join] *)
Fixpoint Join (elems : list string) (sep : string) : string :=
  match elems with
  | [] => EmptyString
  | [e] => e
  | e :: rest => e +:+ sep +:+ Join rest sep
  end.

(** How a run ends: [main] returns, or [os.Exit] is called. *)
Inductive Exit : Type := Returned | Exited (code : Z).

(** [Run] concatenates the provided arguments and writes them to standard
    output. [WriteString] is what [os.Stdout.WriteString] answers for a
    text; a write that fails leaves nothing behind. *)
Definition Run (WriteString : string -> Result unit) (args : list string)
    : Output * Exit :=
  let output := Join args " " in
  match WriteString (output +:+ nl) with
  | Err _ => ([], Exited 1)
  | Ok _ => ([(Stdout, output +:+ nl)], Returned)
  end.

(** [main] of [cmd/echo]; [args] is [os.Args[1:]]:
<<
    if len(os.Args) > 1 { echo.Run(os.Args[1:]) }
>> *)
Definition main (WriteString : string -> Result unit) (args : list string)
    : Output * Exit :=
  match args with
  | [] => ([], Returned)
  | _ :: _ => Run WriteString args
  end.

End Echo.

(** ** The cat tool ([internal/cat]) *)

Module Cat.

(** An open [*os.File] as the program uses it: [FName] is [reader.Name()],
    [Lines] the tokens [bufio.Scanner] yields until [Scan] returns false,
    and [ScanErr] the error [scanner.Err()] holds then, if any. *)
Record File : Type := {
  FName : string;
  Lines : list string;
  ScanErr : option string
}.

(** The operating system around one run: [GetSize] is the width
    [term.GetSize] reports for standard output, a window's column count, or
    its error; [Open] is [os.Open]; [Stdin] is [os.Stdin]. *)
Record World : Type := {
  GetSize : Result Z;
  Open : string -> Result File;
  Stdin : File
}.

Fixpoint copies (s : string) (count : nat) : string :=
  match count with
  | O => EmptyString
  | S count' => s +:+ copies s count'
  end.

(** [strings.Repeat], which panics on a negative count. *)
Definition Repeat (s : string) (count : Z) : M string :=
  if count <? 0 then panic else mret (copies s (Z.to_nat count)).

(** The box-drawing characters of the frame. *)
Definition horizontal : string := utf8 0x2500.
Definition vertical : string := utf8 0x2502.
Definition teeDown : string := utf8 0x252c.
Definition cross : string := utf8 0x253c.
Definition teeUp : string := utf8 0x2534.

(** The header, one call of [fmt.Print] whose operands are all strings:
<<
    fmt.Print(
        strings.Repeat("-", 7), "+", strings.Repeat("-", width-8), "\n",
        strings.Repeat(" ", 7), "| File: ",
        reader.Name(), "\n",
        strings.Repeat("-", 7), "+", strings.Repeat("-", width-8), "\n",
    )
>>
    with the box-drawing characters for the ASCII ones shown here. The
    operands are evaluated before anything is printed. *)
Definition printHeader (width : Z) (name : string) : M unit :=
  a ← Repeat horizontal 7;
  b ← Repeat horizontal (width - 8);
  c ← Repeat " " 7;
  d ← Repeat horizontal 7;
  e ← Repeat horizontal (width - 8);
  write Stdout (a +:+ teeDown +:+ b +:+ nl
                +:+ c +:+ vertical +:+ " File: " +:+ name +:+ nl
                +:+ d +:+ cross +:+ e +:+ nl).

(** The closing line of the frame. *)
Definition printFooter (width : Z) : M unit :=
  a ← Repeat horizontal 7;
  b ← Repeat horizontal (width - 8);
  write Stdout (a +:+ teeUp +:+ b +:+ nl).

(** [for i, t := range s]: the byte index of every rune of the string with
    [string(t)], which is the encoding found at that index, or that of
    U+FFFD for a byte that starts none. [skip] bytes remain of the encoding
    being passed. *)
Fixpoint rangeFrom (skip : nat) (i : Z) (bs : list Z) : list (Z * string) :=
  match bs with
  | [] => []
  | c :: rest =>
      match skip with
      | S k => rangeFrom k (i + 1) rest
      | O =>
          let size := runeSize bs in
          let t := if (size =? 1)%nat && (0x80 <=? c) then utf8 0xfffd
                   else bytes (take size bs) in
          (i, t) :: rangeFrom (pred size) (i + 1) rest
      end
  end.

Definition rangeString (s : string) : list (Z * string) :=
  rangeFrom 0 0 (code <$> list_ascii_of_string s).

(** The body of the loop over the runes of a line. The built-in [print]
    and [println] write to standard error.
<<
    if i%(width-9) == 0 && i != 0 {
        println()
        fmt.Printf("       | ")
    }
    print(string(t))
>> *)
Definition printRune (width : Z) (it : Z * string) : M unit :=
  r ← goRem it.1 (width - 9);
  _ ← (if (r =? 0) && negb (it.1 =? 0)
       then _ ← write Stderr nl; write Stdout (spaces 7 +:+ vertical +:+ " ")
       else mret tt);
  write Stderr it.2.

(** The loop over the lines when they are numbered; [lineCounter] is an
    [int]. *)
Fixpoint printNumbered (width lineCounter : Z) (lines : list string) : M unit :=
  match lines with
  | [] => mret tt
  | line :: lines' =>
      _ ← write Stdout (padLeft 6 (itoa lineCounter) +:+ " " +:+ vertical +:+ " ");
      _ ← forEach (rangeString line) (printRune width);
      _ ← write Stdout nl;
      printNumbered width (wrap64 (lineCounter + 1)) lines'
  end.

(** [printFromReader] reads from the provided file and prints its content.
    [width] is the package variable of that name. *)
Definition printFromReader (width : Z) (reader : File) (lineNumbers : bool) : M unit :=
  _ ← (if lineNumbers then printHeader width (FName reader) else mret tt);
  _ ← (if lineNumbers then
         _ ← printNumbered width 1 (Lines reader);
         printFooter width
       else forEach (Lines reader) (fun line => write Stdout (line +:+ nl)));
  match ScanErr reader with
  | Some err => write Stderr ("cat: error reading input: " +:+ err +:+ nl)
  | None => mret tt
  end.

(** [printFile] opens the specified file and prints its contents; it
    returns the error of [os.Open], if any. *)
Definition printFile (w : World) (width : Z) (fileName : string) (lineNumbers : bool)
    : M (option string) :=
  match Open w fileName with
  | Err err => mret (Some err)
  | Ok file => _ ← printFromReader width file lineNumbers; mret None
  end.

(** [Run] is the entry point. [lineNumbers] is the flag [-n] and [files]
    the arguments after the flags, as the [flag] package parsed them. *)
Definition Run (w : World) (lineNumbers : bool) (files : list string) : M unit :=
  match GetSize w with
  | Err err => write Stderr ("cat: error getting terminal size: " +:+ err +:+ nl)
  | Ok width =>
      match files with
      | [] => printFromReader width (Stdin w) lineNumbers
      | _ :: _ =>
          forEach files (fun file =>
            err ← printFile w width file lineNumbers;
            match err with
            | Some err => write Stderr ("cat: " +:+ err +:+ nl)
            | None => mret tt
            end)
      end
  end.

End Cat.

(** ** Vocabulary of the statements about cat *)

Module CatSpec.

(** The files a run reads: standard input when no file is named, else the
    named files that can be opened, in the order of the arguments. *)
Definition readers (w : Cat.World) (files : list string) : list Cat.File :=
  match files with
  | [] => [Cat.Stdin w]
  | _ :: _ =>
      omap (fun name =>
              match Cat.Open w name with Ok file => Some file | Err _ => None end)
           files
  end.

(** The diagnostic that ends the reading of a file, if the scanner failed. *)
Definition scanErrWrites (reader : Cat.File) : Output :=
  match Cat.ScanErr reader with
  | Some err => [(Stderr, "cat: error reading input: " +:+ err +:+ nl)]
  | None => []
  end.

(** A file without line numbers: its lines, a line feed after each. *)
Definition plainWrites (reader : Cat.File) : Output :=
  ((fun line => (Stdout, line +:+ nl)) <$> Cat.Lines reader) ++ scanErrWrites reader.

(** A named file without line numbers: its lines, or the diagnostic when it
    cannot be opened. *)
Definition fileWrites (w : Cat.World) (name : string) : Output :=
  match Cat.Open w name with
  | Err err => [(Stderr, "cat: " +:+ err +:+ nl)]
  | Ok file => plainWrites file
  end.

Definition joinText (texts : list string) : string :=
  foldr String.append EmptyString texts.

(** A line as the loop over its runes spells it: every byte that starts no
    encoding replaced by U+FFFD. *)
Definition decoded (line : string) : string :=
  joinText (snd <$> Cat.rangeString line).

(** The frame of a numbered file around [count] lines none of which is
    continued: the header with the name, the line numbers from
    [lineCounter] on, each on a line of its own, and the closing line. *)
Definition headerText (width : Z) (name : string) : string :=
  Cat.copies Cat.horizontal 7 +:+ Cat.teeDown
  +:+ Cat.copies Cat.horizontal (Z.to_nat (width - 8)) +:+ nl
  +:+ Cat.copies " " 7 +:+ Cat.vertical +:+ " File: " +:+ name +:+ nl
  +:+ Cat.copies Cat.horizontal 7 +:+ Cat.cross
  +:+ Cat.copies Cat.horizontal (Z.to_nat (width - 8)) +:+ nl.

Fixpoint numberColumn (lineCounter : Z) (count : nat) : string :=
  match count with
  | O => EmptyString
  | S count' =>
      padLeft 6 (itoa lineCounter) +:+ " " +:+ Cat.vertical +:+ " " +:+ nl
      +:+ numberColumn (wrap64 (lineCounter + 1)) count'
  end.

Definition footerText (width : Z) : string :=
  Cat.copies Cat.horizontal 7 +:+ Cat.teeUp
  +:+ Cat.copies Cat.horizontal (Z.to_nat (width - 8)) +:+ nl.

End CatSpec.

(** ** A small world to run cat in *)

Module CatSample.

Definition notes : Cat.File :=
  {| Cat.FName := "notes.txt"; Cat.Lines := ["first"; EmptyString; "third line"];
     Cat.ScanErr := None |}.

Definition stdin : Cat.File :=
  {| Cat.FName := "/dev/stdin"; Cat.Lines := ["typed"]; Cat.ScanErr := None |}.

(** Only [notes.txt] exists; the terminal answers [width]. *)
Definition world (width : Result Z) : Cat.World :=
  {| Cat.GetSize := width;
     Cat.Open := fun name =>
       if (name =? "notes.txt")%string then Ok notes
       else Err ("open " +:+ name +:+ ": no such file or directory");
     Cat.Stdin := stdin |}.

End CatSample.

(** * Properties *)

(** ** The order on strings *)

Lemma strLess_irrefl (a : string) : strLess a a = false.
Proof.
  induction a as [|x a IH]; simpl; [reflexivity|].
  rewrite Z.ltb_irrefl. exact IH.
Qed.

Lemma strLess_asym (a b : string) : strLess a b = true -> strLess b a = false.
Proof.
  revert b. induction a as [|x a IH]; intros [|y b]; simpl; try done.
  destruct (Z.ltb_spec (code x) (code y)), (Z.ltb_spec (code y) (code x));
    try done; try lia.
  apply IH.
Qed.

(** [a <= b] and [b <= c] give [a <= c], with [a <= b] read as "not [b < a]". *)
Lemma strLess_negtrans (a b c : string) :
  strLess b a = false -> strLess c b = false -> strLess c a = false.
Proof.
  revert b c. induction a as [|x a IH]; intros [|y b] [|z c]; simpl; try done.
  destruct (Z.ltb_spec (code y) (code x)), (Z.ltb_spec (code x) (code y)),
      (Z.ltb_spec (code z) (code y)), (Z.ltb_spec (code y) (code z)),
      (Z.ltb_spec (code z) (code x)), (Z.ltb_spec (code x) (code z));
    try done; try lia.
  apply IH.
Qed.

(** ** Insertion sort *)

Section SortPermutation.
Context {A : Type} (less : A -> A -> bool).

Lemma sink_perm (x : A) (before : list A) :
  Permutation (x :: before) (GoSort.sink less x before).
Proof.
  induction before as [|y before IH]; simpl; [done|].
  destruct (less x y); [|done].
  rewrite Permutation_swap. by constructor.
Qed.

Lemma foldl_sink_perm (data acc : list A) :
  Permutation (reverse acc ++ data)
    (reverse (foldl (fun before x => GoSort.sink less x before) acc data)).
Proof.
  revert acc. induction data as [|x data IH]; intros acc; simpl.
  - by rewrite app_nil_r.
  - rewrite <- IH. rewrite !reverse_Permutation, <- sink_perm.
    by rewrite <- Permutation_middle.
Qed.

Lemma Slice_perm (data : list A) : Permutation data (GoSort.Slice less data).
Proof. apply (foldl_sink_perm data []). Qed.
End SortPermutation.

Section SortFacts.
Context {A : Type} (less : A -> A -> bool).
Hypothesis less_asym : forall a b, less a b = true -> less b a = false.
Hypothesis less_negtrans :
  forall a b c, less b a = false -> less c b = false -> less c a = false.

Lemma sink_descending (x : A) (before : list A) :
  GoSort.descending less before -> GoSort.descending less (GoSort.sink less x before).
Proof.
  unfold GoSort.descending.
  induction before as [|y before IH]; intros Hs; simpl.
  - repeat constructor.
  - apply StronglySorted_inv in Hs as [Hs Hy].
    destruct (less x y) eqn:Hxy.
    + constructor; [by apply IH|].
      rewrite <- (sink_perm less x before). constructor; [|done].
      by apply less_asym.
    + constructor; [by constructor|].
      constructor; [done|].
      rewrite Forall_forall in Hy |- *. intros z Hz.
      eapply less_negtrans; [|exact Hxy]. by apply Hy.
Qed.

Lemma descending_rev (l : list A) :
  GoSort.descending less l -> GoSort.ascending less (reverse l).
Proof.
  unfold GoSort.descending, GoSort.ascending.
  induction l as [|a l IH]; intros Hs; [constructor|].
  rewrite reverse_cons.
  apply StronglySorted_cons in Hs as [Ha Hs].
  apply StronglySorted_app_2; [|by apply IH|repeat constructor].
  intros x1 x2 Hx1 Hx2. rewrite elem_of_reverse in Hx1.
  apply list_elem_of_singleton in Hx2 as ->.
  rewrite Forall_forall in Ha. by apply Ha.
Qed.

Lemma foldl_sink_descending (data acc : list A) :
  GoSort.descending less acc ->
  GoSort.descending less (foldl (fun before x => GoSort.sink less x before) acc data).
Proof.
  revert acc. induction data as [|x data IH]; intros acc Hacc; simpl; [done|].
  apply IH. by apply sink_descending.
Qed.

Lemma Slice_ascending (data : list A) :
  GoSort.ascending less (GoSort.Slice less data).
Proof.
  unfold GoSort.Slice, GoSort.insertionSort. apply descending_rev.
  apply foldl_sink_descending. constructor.
Qed.
End SortFacts.

Lemma lessName_asym (a b : DirEntry) : lessName a b = true -> lessName b a = false.
Proof. apply strLess_asym. Qed.

Lemma lessName_negtrans (a b c : DirEntry) :
  lessName b a = false -> lessName c b = false -> lessName c a = false.
Proof. apply strLess_negtrans. Qed.




(** ** Icons *)

(** The map literal is looked up like the table it is built from: the rule
    list of the specification finds what [iconMap] holds. *)
Lemma firstMatch_table (name ext : string) (table : list (string * string)) :
  firstMatch name ext ((fun row => ExtensionIs row.1 row.2) <$> table)
  = (list_to_map table : gmap string string) !! ext.
Proof.
  induction table as [|[k v] table IH]; simpl; [done|].
  destruct (String.eqb_spec ext k) as [->|Hne].
  - by rewrite lookup_insert_eq.
  - by rewrite lookup_insert_ne.
Qed.

Lemma firstMatch_app (name ext : string) (rules1 rules2 : list IconRule) :
  firstMatch name ext (rules1 ++ rules2)
  = match firstMatch name ext rules1 with
    | Some symbol => Some symbol
    | None => firstMatch name ext rules2
    end.
Proof.
  induction rules1 as [|r rules1 IH]; simpl; [done|].
  by destruct (ruleSymbol name ext r).
Qed.

Lemma firstMatch_extension (name ext : string) :
  firstMatch name ext extensionRules = iconMap !! ext.
Proof. apply firstMatch_table. Qed.

(** The code and the rule list agree on every entry. *)
Lemma getFileNameWithIcon_eq_classify (entry : DirEntry) :
  getFileNameWithIcon entry
  = classify (Name entry) (ToLower (Ext (Name entry))) (IsDir entry) +:+ Name entry.
Proof.
  unfold getFileNameWithIcon, classify.
  destruct (IsDir entry); [done|].
  rewrite firstMatch_app, firstMatch_extension. unfold getIcon, fallbackSymbol.
  generalize (iconMap !! ToLower (Ext (Name entry))). intros found.
  unfold exactNameRules, firstMatch, ruleSymbol.
  repeat match goal with
         | |- context [(Name entry =? ?s)%string] =>
             destruct (Name entry =? s)%string; simpl; try reflexivity
         end.
  all: by destruct found.
Qed.

Lemma exactNames_spec (name : string) :
  name ∈ exactNames <->
  firstMatch name EmptyString exactNameRules <> None.
Proof.
  unfold exactNames, exactNameRules, firstMatch, ruleSymbol.
  rewrite !elem_of_cons, elem_of_nil.
  repeat match goal with
         | |- context [(name =? ?s)%string] =>
             destruct (String.eqb_spec name s); [subst; split; [done|intros _; tauto]|]
         end.
  split; [tauto|done].
Qed.

(** *** Strings as lists of bytes *)

Lemma list_ascii_of_string_app (a b : string) :
  list_ascii_of_string (a +:+ b) = list_ascii_of_string a ++ list_ascii_of_string b.
Proof. induction a as [|c a IH]; simpl; [done|]. by rewrite IH. Qed.

Lemma list_ascii_of_string_inj (a b : string) :
  list_ascii_of_string a = list_ascii_of_string b -> a = b.
Proof.
  intros H. rewrite <- (string_of_list_ascii_of_string a),
    <- (string_of_list_ascii_of_string b). by rewrite H.
Qed.

Lemma append_inj_l (a b name : string) : a +:+ name = b +:+ name -> a = b.
Proof.
  intros H. apply list_ascii_of_string_inj.
  apply (f_equal list_ascii_of_string) in H.
  rewrite !list_ascii_of_string_app in H. by apply app_inv_tail in H.
Qed.






(** *** The exact names and the table *)

Lemma getFileNameWithIcon_by_extension (name : string) (i : Result FileInfo) :
  name ∉ exactNames ->
  getFileNameWithIcon {| Name := name; IsDir := false; Info := i |}
  = getIcon (ToLower (Ext name)) +:+ name.
Proof.
  unfold exactNames. rewrite !not_elem_of_cons. intros H.
  unfold getFileNameWithIcon. simpl.
  repeat match goal with
         | |- context [(name =? ?s)%string] =>
             destruct (String.eqb_spec name s); [tauto|]
         end.
  done.
Qed.

Lemma getFileNameWithIcon_exact (name : string) (i : Result FileInfo) :
  name ∈ exactNames ->
  exists symbol, symbol ∈ exactSymbols
    /\ getFileNameWithIcon {| Name := name; IsDir := false; Info := i |}
       = symbol +:+ name.
Proof.
  unfold exactNames. rewrite !elem_of_cons, elem_of_nil. unfold exactSymbols.
  intros H.
  repeat (destruct H as [->|H];
          [eexists; split; [|reflexivity]; set_solver|]).
  done.
Qed.


(** ** The column layout *)

Lemma len_nonneg (s : string) : 0 <= len s.
Proof. unfold len. lia. Qed.

Lemma longest_nonneg (names : list string) : 0 <= longest names.
Proof. induction names as [|name names IH]; simpl; lia. Qed.

Lemma collectNames_loop (entries : list DirEntry) (names : list string) (maxLen : Z) :
  0 <= maxLen ->
  foldl (fun acc entry =>
           let name := getFileNameWithIcon entry in
           (acc.1 ++ [name], if acc.2 <? len name then len name else acc.2))
        (names, maxLen) entries
  = (names ++ (getFileNameWithIcon <$> entries),
     Z.max maxLen (longest (getFileNameWithIcon <$> entries))).
Proof.
  revert names maxLen.
  induction entries as [|entry entries IH]; intros names maxLen Hmax; simpl.
  - rewrite app_nil_r. f_equal. lia.
  - pose proof (len_nonneg (getFileNameWithIcon entry)).
    pose proof (longest_nonneg (getFileNameWithIcon <$> entries)).
    rewrite IH by (destruct (Z.ltb_spec maxLen (len (getFileNameWithIcon entry))); lia).
    rewrite <- app_assoc. f_equal.
    change (foldr _ 0 (getFileNameWithIcon <$> entries))
      with (longest (getFileNameWithIcon <$> entries)).
    change (list_fmap _ _ getFileNameWithIcon entries)
      with (getFileNameWithIcon <$> entries).
    destruct (Z.ltb_spec maxLen (len (getFileNameWithIcon entry))); lia.
Qed.

Lemma collectNames_spec (entries : list DirEntry) :
  collectNames entries
  = (getFileNameWithIcon <$> entries, longest (getFileNameWithIcon <$> entries)).
Proof.
  unfold collectNames. rewrite collectNames_loop by lia.
  f_equal. pose proof (longest_nonneg (getFileNameWithIcon <$> entries)). lia.
Qed.

Lemma layoutWidth_floor (w : World) : 20 <= layoutWidth w.
Proof.
  unfold layoutWidth. destruct (GetSize w) as [width|err]; [|lia].
  destruct (Z.ltb_spec width 20); lia.
Qed.

(** With a positive divisor the division does not panic, and the count is
    the floor of the quotient, raised to 1. *)
Lemma columnCount_spec (width colWidth : Z) (n : nat) :
  0 <= width -> 0 < colWidth ->
  columnCount width colWidth n = Some (Z.max 1 (width `div` colWidth), [], n).
Proof.
  intros Hw Hc. unfold columnCount, goQuo.
  destruct (Z.eqb_spec colWidth 0) as [|_]; [lia|].
  unfold mbind, M_bind, mret, M_ret. simpl.
  rewrite Z.quot_div_nonneg by lia.
  pose proof (Z.div_pos width colWidth Hw Hc).
  destruct (Z.eqb_spec (width `div` colWidth) 0); do 3 f_equal; lia.
Qed.

Lemma printNames_total (colWidth cols n i : Z) (names : list string) (k : nat) :
  cols <> 0 ->
  exists out, printNames colWidth cols n i names k = Some (tt, out, k).
Proof.
  intros Hcols. revert i.
  induction names as [|name names IH]; intros i; simpl.
  - by exists [].
  - destruct (IH (i + 1)) as [out Hout].
    unfold mbind, M_bind, goRem, write, mret, M_ret.
    destruct (Z.eqb_spec cols 0) as [|_]; [done|].
    destruct ((Z.rem (i + 1) cols =? 0) || (i =? n - 1)); rewrite Hout; by eexists.
Qed.

Lemma printMultiColumn_spec (w : World) (entries : list DirEntry) (n : nat) :
  printMultiColumn w entries n
  = printNames (longest (getFileNameWithIcon <$> entries) + 2)
      (Z.max 1 (layoutWidth w `div` (longest (getFileNameWithIcon <$> entries) + 2)))
      (Z.of_nat (length (getFileNameWithIcon <$> entries))) 0
      (getFileNameWithIcon <$> entries) n.
Proof.
  unfold printMultiColumn. rewrite collectNames_spec.
  pose proof (longest_nonneg (getFileNameWithIcon <$> entries)).
  pose proof (layoutWidth_floor w).
  unfold mbind, M_bind. rewrite columnCount_spec by lia.
  by destruct (printNames _ _ _ _ _ n) as [[[[] out] n']|].
Qed.

(** ** Integers *)

Lemma wrap64_small (z : Z) : - 2^63 <= z < 2^63 -> wrap64 z = z.
Proof. intros H. unfold wrap64. rewrite Z.mod_small; lia. Qed.

Lemma wrap64_add_l (a b : Z) : wrap64 (wrap64 a + b) = wrap64 (a + b).
Proof.
  unfold wrap64. f_equal.
  replace ((a + 2^63) mod 2^64 - 2^63 + b + 2^63) with ((a + 2^63) mod 2^64 + b) by lia.
  rewrite Zplus_mod_idemp_l. f_equal. lia.
Qed.

(** ** The header of the long format *)

Lemma sumBlocks_cons (entry : DirEntry) (entries : list DirEntry) :
  sumBlocks (entry :: entries)
  = match Info entry with
    | Ok info => Blocks (Sys info) + sumBlocks entries
    | Err _ => sumBlocks entries
    end.
Proof. unfold sumBlocks, okBlocks. simpl. by destruct (Info entry). Qed.

Lemma totalBlocks_loop (entries : list DirEntry) (a : Z) :
  foldl (fun totalBlocks entry =>
           match Info entry with
           | Err _ => totalBlocks
           | Ok info => wrap64 (totalBlocks + Blocks (Sys info))
           end) (wrap64 a) entries
  = wrap64 (a + sumBlocks entries).
Proof.
  revert a. induction entries as [|entry entries IH]; intros a.
  - simpl. f_equal. unfold sumBlocks. simpl. lia.
  - rewrite sumBlocks_cons. simpl. destruct (Info entry) as [info|err].
    + rewrite wrap64_add_l, IH. f_equal. lia.
    + apply IH.
Qed.

Lemma printTotalBlocks_wrap (entries : list DirEntry) (n : nat) :
  printTotalBlocks entries n
  = Some (tt, [(Stdout, totalLine (Z.quot (wrap64 (sumBlocks entries)) 2))], n).
Proof.
  unfold printTotalBlocks. change 0 with (wrap64 0) at 1.
  by rewrite totalBlocks_loop.
Qed.

Lemma sumBlocks_nonneg (entries : list DirEntry) :
  Forall (fun b => 0 <= b) (okBlocks entries) -> 0 <= sumBlocks entries.
Proof.
  unfold sumBlocks. induction 1 as [|b bs Hb _ IH]; simpl; lia.
Qed.

Lemma okBlocks_perm (l1 l2 : list DirEntry) :
  Permutation l1 l2 -> Permutation (okBlocks l1) (okBlocks l2).
Proof. unfold okBlocks. by intros ->. Qed.

Lemma sumBlocks_perm (l1 l2 : list DirEntry) :
  Permutation l1 l2 -> sumBlocks l1 = sumBlocks l2.
Proof.
  intros H. apply okBlocks_perm in H. unfold sumBlocks.
  induction H; simpl; lia.
Qed.

(** ** The detailed line *)

Lemma setBits_Perm (m top : Z) (chars : list ascii) :
  8 + Z.of_nat (length chars) <= top -> setBits (Perm m) top chars = [].
Proof.
  revert top. induction chars as [|c chars IH]; intros top Htop; simpl; [done|].
  simpl in Htop. rewrite IH by lia.
  unfold Perm, ModePerm. rewrite Z.land_spec.
  change 0x1ff with (Z.ones 9). rewrite (Z.ones_spec_high 9 top) by lia.
  by rewrite andb_false_r.
Qed.

(** [Perm] clears the type bits, so the string starts with ['-'] and
    dropping its first byte never fails. *)
Lemma FileMode_String_Perm (m : Z) :
  FileMode_String (Perm m) = "-" +:+ rwxString m.
Proof.
  unfold FileMode_String, rwxString.
  rewrite setBits_Perm by (simpl; lia). reflexivity.
Qed.

Lemma printDetailedEntry_ok (w : World) (entry : DirEntry) (info : FileInfo) (n : nat) :
  Info entry = Ok info ->
  printDetailedEntry w entry n
  = Some (tt,
          [(Stdout,
            detailLine (permString (Mode info)) (Nlink (Sys info))
              (ownerName w (Uid (Sys info))) (groupName w (Gid (Sys info)))
              (Size info)
              (Format w (ModTime info)
                 (timeFormat (Sub (Clock w n) (ModTime info))))
              (getFileNameWithIcon entry))],
          S n).
Proof.
  intros Hinfo. unfold printDetailedEntry. rewrite Hinfo.
  rewrite FileMode_String_Perm. unfold permString, ownerName, groupName.
  by destruct (FileMode_IsDir (Mode info)).
Qed.

Lemma printDetailedEntry_err (w : World) (entry : DirEntry) (err : string) (n : nat) :
  Info entry = Err err ->
  printDetailedEntry w entry n
  = Some (tt, [(Stdout, infoErrorLine (Name entry) err)], n).
Proof. intros Hinfo. unfold printDetailedEntry. by rewrite Hinfo. Qed.

(** Every entry prints one line on standard output, whatever fails. *)
Lemma printDetailedEntry_total (w : World) (entry : DirEntry) (n : nat) :
  exists text n', printDetailedEntry w entry n = Some (tt, [(Stdout, text)], n').
Proof.
  destruct (Info entry) as [info|err] eqn:Hinfo.
  - eexists _, _. by apply printDetailedEntry_ok.
  - eexists _, _. by apply printDetailedEntry_err.
Qed.

(** The loop over the entries prints the line of each entry in turn: the
    diagnostic for an entry whose [Info] fails, the detailed line, made at
    some reading of the clock, for every other. *)
Lemma forEach_printDetailedEntry (w : World) (entries : list DirEntry) (n : nat) :
  exists lines n',
    forEach entries (printDetailedEntry w) n = Some (tt, lines, n')
    /\ Forall2 (fun entry line =>
                  match Info entry with
                  | Err err => line = (Stdout, infoErrorLine (Name entry) err)
                  | Ok info =>
                      exists k,
                        line = (Stdout,
                                detailLine (permString (Mode info)) (Nlink (Sys info))
                                  (ownerName w (Uid (Sys info)))
                                  (groupName w (Gid (Sys info))) (Size info)
                                  (Format w (ModTime info)
                                     (timeFormat (Sub (Clock w k) (ModTime info))))
                                  (getFileNameWithIcon entry))
                  end)
         entries lines.
Proof.
  revert n. induction entries as [|entry entries IH]; intros n; simpl.
  - exists [], n. split; [done|constructor].
  - unfold mbind, M_bind.
    destruct (Info entry) as [info|err] eqn:Hinfo.
    + rewrite (printDetailedEntry_ok w entry info n Hinfo).
      destruct (IH (S n)) as (lines & n' & -> & Hall).
      eexists _, _. split; [reflexivity|].
      constructor; [|done]. rewrite Hinfo. by exists n.
    + rewrite (printDetailedEntry_err w entry err n Hinfo).
      destruct (IH n) as (lines & n' & -> & Hall).
      eexists _, _. split; [reflexivity|].
      constructor; [|done]. by rewrite Hinfo.
Qed.

Lemma Run_unreadable (w : World) (longFormat : bool) (args : list string)
    (err : string) (n : nat) :
  ReadDir w (targetDir args) = Err err ->
  Run w longFormat args n
  = Some (tt, [(Stderr, "ls: cannot access '" +:+ targetDir args +:+ "': "
                        +:+ err +:+ nl)], n).
Proof. intros Hdir. unfold Run. by rewrite Hdir. Qed.

Lemma Run_long (w : World) (args : list string) (entries : list DirEntry) (n : nat) :
  ReadDir w (targetDir args) = Ok entries ->
  exists lines n',
    Run w true args n
    = Some (tt, (Stdout, totalLine (Z.quot (wrap64 (sumBlocks entries)) 2)) :: lines, n')
    /\ forEach (GoSort.Slice lessName entries) (printDetailedEntry w) n
       = Some (tt, lines, n').
Proof.
  intros Hdir. unfold Run. rewrite Hdir.
  destruct (forEach_printDetailedEntry w (GoSort.Slice lessName entries) n)
    as (lines & n' & Hrun & Hall).
  exists lines, n'. split; [|done].
  unfold mbind, M_bind. rewrite printTotalBlocks_wrap, Hrun.
  by rewrite (sumBlocks_perm _ _ (Slice_perm lessName entries)).
Qed.

Lemma Run_compact (w : World) (args : list string) (entries : list DirEntry) (n : nat) :
  ReadDir w (targetDir args) = Ok entries ->
  Run w false args n = printMultiColumn w (GoSort.Slice lessName entries) n.
Proof. intros Hdir. unfold Run. by rewrite Hdir. Qed.

(** ** The claims about the icons *)

(** C2. The icon is a function of the name, its lower-cased extension and
    the directory flag alone, found by the rule list of the specification:
    a directory gets the directory symbol whatever its name; any other
    entry gets the symbol of the exact-name rule its name matches, else the
    symbol the table holds for its extension, else the fallback symbol. *)
Theorem icon_classification (name : string) (is_directory : bool) (i : Result FileInfo) :
  getFileNameWithIcon {| Name := name; IsDir := is_directory; Info := i |}
  = classify name (ToLower (Ext name)) is_directory +:+ name
  /\ getFileNameWithIcon {| Name := name; IsDir := true; Info := i |}
     = directorySymbol +:+ name
  /\ (forall ext, classify name ext true = directorySymbol)
  /\ (forall ext,
        classify name ext false
        = match firstMatch name ext exactNameRules with
          | Some symbol => symbol
          | None =>
              match iconMap !! ext with
              | Some symbol => symbol
              | None => fallbackSymbol
              end
          end).
Proof.
  split; [apply getFileNameWithIcon_eq_classify|].
  split; [reflexivity|]. split; [reflexivity|].
  intros ext. unfold classify. rewrite firstMatch_app, firstMatch_extension.
  by destruct (firstMatch name ext exactNameRules).
Qed.



(** ** The claims about the column layout *)



(** C10. An empty listing prints nothing in the compact layout, and the
    division that counts the columns never has a zero divisor: the column
    width is at least 2, and the layout of any listing runs to its end. *)
Theorem empty_listing_prints_nothing (w : World) (n : nat) :
  printMultiColumn w [] n = Some (tt, [], n)
  /\ (forall entries, 2 <= longest (getFileNameWithIcon <$> entries) + 2)
  /\ (forall entries, exists out, printMultiColumn w entries n = Some (tt, out, n)).
Proof.
  split; [|split].
  - by rewrite printMultiColumn_spec.
  - intros entries. pose proof (longest_nonneg (getFileNameWithIcon <$> entries)). lia.
  - intros entries. rewrite printMultiColumn_spec. apply printNames_total. lia.
Qed.

(** ** The claims about failures *)

(** C4. When the directory cannot be read, [Run] prints one diagnostic and
    nothing else. When it can, the long format prints the header and then
    one line for every entry of the sorted listing, in order: the entry's
    own diagnostic when its [Info] fails, its detailed line otherwise, with
    the numeric id where an account lookup fails; the compact format runs to
    its end as well. No failure of an entry stops the entries after it. *)
Theorem only_directory_failure_stops_the_listing
    (w : World) (longFormat : bool) (args : list string) (n : nat) :
  (forall err,
     ReadDir w (targetDir args) = Err err ->
     Run w longFormat args n
     = Some (tt, [(Stderr, "ls: cannot access '" +:+ targetDir args +:+ "': "
                           +:+ err +:+ nl)], n))
  /\ (forall entries,
        ReadDir w (targetDir args) = Ok entries ->
        exists header lines n',
          Run w true args n = Some (tt, header :: lines, n')
          /\ Forall2 (fun entry line =>
                        match Info entry with
                        | Err err => line = (Stdout, infoErrorLine (Name entry) err)
                        | Ok info =>
                            exists k,
                              line = (Stdout,
                                      detailLine (permString (Mode info))
                                        (Nlink (Sys info))
                                        (ownerName w (Uid (Sys info)))
                                        (groupName w (Gid (Sys info))) (Size info)
                                        (Format w (ModTime info)
                                           (timeFormat
                                              (Sub (Clock w k) (ModTime info))))
                                        (getFileNameWithIcon entry))
                        end)
               (GoSort.Slice lessName entries) lines)
  /\ (forall entries,
        ReadDir w (targetDir args) = Ok entries ->
        exists out, Run w false args n = Some (tt, out, n)).
Proof.
  split; [|split].
  - intros err Hdir. by apply Run_unreadable.
  - intros entries Hdir.
    destruct (Run_long w args entries n Hdir) as (lines & n' & Hrun & Hloop).
    destruct (forEach_printDetailedEntry w (GoSort.Slice lessName entries) n)
      as (lines' & n'' & Hloop' & Hall).
    rewrite Hloop in Hloop'. injection Hloop' as <- <-.
    by eexists _, lines, n'.
  - intros entries Hdir. rewrite (Run_compact w args entries n Hdir).
    rewrite printMultiColumn_spec. apply printNames_total. lia.
Qed.

Lemma only_directory_failure_stops_the_listing_witness :
  let w := Sample.world [Sample.gone "draft.txt"; Sample.orphan] (Ok 80) 0 in
  Run w true ["/nope"] 0%nat
  = Some (tt, [(Stderr, "ls: cannot access '/nope': open /nope: no such file or directory"
                        +:+ nl)], 0%nat)
  /\ (exists header lines n',
        Run w true [] 0%nat = Some (tt, header :: lines, n')
        /\ length lines = 2%nat)
  /\ (exists out, Run w false [] 0%nat = Some (tt, out, 0%nat)).
Proof.
  intros w.
  split; [|split].
  - apply (proj1 (only_directory_failure_stops_the_listing w true ["/nope"] 0%nat)).
    reflexivity.
  - destruct (proj1 (proj2 (only_directory_failure_stops_the_listing w true [] 0%nat))
                _ eq_refl) as (header & lines & n' & Hrun & Hall).
    exists header, lines, n'. split; [exact Hrun|].
    apply Forall2_length in Hall. exact (eq_trans (eq_sym Hall) eq_refl).
  - apply (proj2 (proj2 (only_directory_failure_stops_the_listing w false [] 0%nat))
             _ eq_refl).
Defined.

(** C6. In the long format the first line printed is ["total "] followed by
    the sum of the block counts of the entries whose [Info] succeeds, halved,
    the counts being those of a file system: not negative, and with a sum
    that an [int64] holds. *)
Theorem total_line_sums_blocks
    (w : World) (args : list string) (entries : list DirEntry) (n : nat) :
  Forall (fun blocks => 0 <= blocks) (okBlocks entries) ->
  sumBlocks entries < 2^63 ->
  printTotalBlocks entries n
  = Some (tt, [(Stdout, "total " +:+ itoa (sumBlocks entries `div` 2) +:+ nl)], n)
  /\ (ReadDir w (targetDir args) = Ok entries ->
      exists lines n',
        Run w true args n
        = Some (tt, (Stdout, "total " +:+ itoa (sumBlocks entries `div` 2) +:+ nl)
                    :: lines, n')
        /\ length lines = length entries).
Proof.
  intros Hnonneg Hfit. pose proof (sumBlocks_nonneg entries Hnonneg) as Hsum.
  assert (Z.quot (wrap64 (sumBlocks entries)) 2 = sumBlocks entries `div` 2) as Hhalf.
  { rewrite wrap64_small by lia. apply Z.quot_div_nonneg; lia. }
  split.
  - by rewrite printTotalBlocks_wrap, Hhalf.
  - intros Hdir.
    destruct (Run_long w args entries n Hdir) as (lines & n' & Hrun & Hloop).
    destruct (forEach_printDetailedEntry w (GoSort.Slice lessName entries) n)
      as (lines' & n'' & Hloop' & Hall).
    rewrite Hloop in Hloop'. injection Hloop' as <- <-.
    exists lines, n'. rewrite Hhalf in Hrun. split; [exact Hrun|].
    apply Forall2_length in Hall. rewrite <- Hall.
    symmetry. apply Permutation_length, Slice_perm.
Qed.

Lemma total_line_sums_blocks_witness :
  let entries := Sample.gone "draft.txt" :: Sample.scenario in
  printTotalBlocks entries 0%nat = Some (tt, [(Stdout, "total 12" +:+ nl)], 0%nat).
Proof.
  intros entries.
  apply (proj1 (total_line_sums_blocks
                  (Sample.world entries (Ok 80) 0) [] entries 0%nat
                  ltac:(repeat constructor; vm_compute; discriminate)
                  ltac:(vm_compute; reflexivity))).
Defined.

(** C7, the per-entry diagnostic. Listing in long format a directory whose
    only entry cannot be examined prints the entry's diagnostic on standard
    output, after the header, and nothing on standard error. *)
Theorem entry_diagnostic_on_stdout :
  output (Run (Sample.world [Sample.gone "draft.txt"] (Ok 80) 0) true [])
  = Some [(Stdout, "total 0" +:+ nl);
          (Stdout, "ls: error reading file info for draft.txt: "
                   +:+ "lstat draft.txt: no such file or directory" +:+ nl)]
  /\ (textOn Stderr
        <$> output (Run (Sample.world [Sample.gone "draft.txt"] (Ok 80) 0) true []))
     = Some EmptyString.
Proof. split; reflexivity. Qed.

(** C9. When [Info] succeeds and the owner's id has no account, the owner
    column of the entry's line is the id in decimal; likewise the group
    column when the group's id has none. The line is printed all the same. *)
Theorem unresolved_ids_print_as_numbers
    (w : World) (entry : DirEntry) (info : FileInfo) (n : nat) :
  Info entry = Ok info ->
  (forall err,
     LookupId w (itoa (Uid (Sys info))) = Err err ->
     printDetailedEntry w entry n
     = Some (tt,
             [(Stdout,
               detailLine (permString (Mode info)) (Nlink (Sys info))
                 (itoa (Uid (Sys info))) (groupName w (Gid (Sys info)))
                 (Size info)
                 (Format w (ModTime info)
                    (timeFormat (Sub (Clock w n) (ModTime info))))
                 (getFileNameWithIcon entry))],
             S n))
  /\ (forall err,
        LookupGroupId w (itoa (Gid (Sys info))) = Err err ->
        printDetailedEntry w entry n
        = Some (tt,
                [(Stdout,
                  detailLine (permString (Mode info)) (Nlink (Sys info))
                    (ownerName w (Uid (Sys info))) (itoa (Gid (Sys info)))
                    (Size info)
                    (Format w (ModTime info)
                       (timeFormat (Sub (Clock w n) (ModTime info))))
                    (getFileNameWithIcon entry))],
                S n)).
Proof.
  intros Hinfo. split; intros err Hlookup;
    rewrite (printDetailedEntry_ok w entry info n Hinfo).
  - unfold ownerName. by rewrite Hlookup.
  - unfold groupName. by rewrite Hlookup.
Qed.

Lemma unresolved_ids_print_as_numbers_witness :
  printDetailedEntry (Sample.world [Sample.orphan] (Ok 80) 0) Sample.orphan 0%nat
  = Some (tt,
          [(Stdout,
            "-rw-r--r-- 1 9999 9999   42 Jan _2 15:04 " +:+ glyph 0xea7b
            +:+ "notes" +:+ nl)],
          1%nat).
Proof.
  apply (proj1 (unresolved_ids_print_as_numbers
                  (Sample.world [Sample.orphan] (Ok 80) 0) Sample.orphan
                  (Sample.info 0x1a4 42 1 9999 9999 8) 0%nat eq_refl)
           "user: unknown userid 9999").
  reflexivity.
Defined.

(** ** The rounding of [Hours] *)

Lemma pow2_pos (k : Z) : 0 <= k -> 0 < 2 ^ k.
Proof. intros. by apply Z.pow_pos_nonneg. Qed.

Lemma pow2_succ (k : Z) : 0 <= k -> 2 ^ (k + 1) = 2 * 2 ^ k.
Proof. intros. by rewrite Z.pow_add_r, Z.pow_1_r, Z.mul_comm. Qed.

Lemma Zdigits2_bounds (p : positive) :
  2 ^ (Zdigits2 (Zpos p) - 1) <= Zpos p < 2 ^ Zdigits2 (Zpos p).
Proof.
  simpl. induction p as [p IH|p IH|]; simpl digits2_pos.
  - rewrite Pos2Z.inj_succ, Pos2Z.inj_xI. unfold Z.succ.
    replace (Z.pos (digits2_pos p) + 1 - 1) with (Z.pos (digits2_pos p) - 1 + 1) by lia.
    rewrite !pow2_succ by lia. lia.
  - rewrite Pos2Z.inj_succ, Pos2Z.inj_xO. unfold Z.succ.
    replace (Z.pos (digits2_pos p) + 1 - 1) with (Z.pos (digits2_pos p) - 1 + 1) by lia.
    rewrite !pow2_succ by lia. lia.
  - simpl. lia.
Qed.

Lemma Zdigits2_unique (z d : Z) :
  0 < d -> 2 ^ (d - 1) <= z < 2 ^ d -> Zdigits2 z = d.
Proof.
  intros Hd [Hlo Hhi].
  assert (0 < z) as Hz by (pose proof (pow2_pos (d - 1)); lia).
  destruct z as [|p|p]; try lia.
  pose proof (Zdigits2_bounds p) as [Hlo' Hhi'].
  set (d' := Zdigits2 (Z.pos p)) in *.
  assert (0 < d') by (subst d'; simpl; lia).
  destruct (Z.lt_trichotomy d d') as [Hlt|[Heq|Hgt]]; [|done|].
  - assert (2 ^ d <= 2 ^ (d' - 1)) by (apply Z.pow_le_mono_r; lia). lia.
  - assert (2 ^ d' <= 2 ^ (d - 1)) by (apply Z.pow_le_mono_r; lia). lia.
Qed.

(** [iter_pos f p] applies [f] [p] times. *)
Lemma iter_pos_steps {A : Type} (f : A -> A) (J : Z -> A -> Prop) :
  (forall k x, J k x -> J (k + 1) (f x)) ->
  forall p k x, J k x -> J (k + Zpos p) (SpecFloat.iter_pos f p x).
Proof.
  intros Hstep. induction p as [p IH|p IH|]; intros k x Hx; simpl.
  - replace (k + Z.pos p~1) with (k + 1 + Zpos p + Zpos p) by lia.
    apply IH, IH, Hstep, Hx.
  - replace (k + Z.pos p~0) with (k + Zpos p + Zpos p) by lia.
    apply IH, IH, Hx.
  - apply Hstep, Hx.
Qed.

(** One shift to the right halves the unit the fraction is counted in. *)
Lemma shr_1_place (N D : Z) :
  0 <= N -> 0 < D -> shr_1 (place N D) = place N (D * 2).
Proof.
  intros HN HD. unfold place.
  assert (0 <= N / D) as Hq by (apply Z.div_pos; lia).
  pose proof (Z.mod_pos_bound N D HD) as Hr.
  rewrite (Z.rem_mul_r N D 2) by lia.
  rewrite <- (Z.div_div N D 2) by lia.
  pose proof (Z.div_mod (N / D) 2 ltac:(lia)) as Hdm.
  pose proof (Z.mod_pos_bound (N / D) 2 ltac:(lia)) as Hm2.
  generalize dependent (N mod D). intros r Hr.
  generalize dependent ((N / D) / 2). intros h.
  generalize dependent ((N / D) mod 2). intros b Hb Hdm.
  generalize dependent (N / D). intros q Hq Hdm.
  unfold shr_1.
  destruct q as [|[p|p|]|p]; try lia;
    first [assert (b = 0) as -> by lia | assert (b = 1) as -> by lia];
    first [assert (h = 0) as -> by lia | assert (h = Zpos p) as -> by lia];
    f_equal;
    repeat match goal with
           | |- context [Z.leb ?x ?y] => destruct (Z.leb_spec x y)
           | |- context [Z.eqb ?x ?y] => destruct (Z.eqb_spec x y)
           end; simpl; try done; lia.
Qed.

Lemma shr_place (N D e n : Z) :
  0 <= N -> 0 < D -> 0 <= n ->
  shr (place N D) e n = (place N (D * 2 ^ n), e + n).
Proof.
  intros HN HD Hn. destruct n as [|p|p]; try lia.
  - simpl. by rewrite Z.mul_1_r, Z.add_0_r.
  - unfold shr. f_equal.
    apply (iter_pos_steps shr_1 (fun k x => 0 <= k /\ x = place N (D * 2 ^ k)))
      with (k := 0) (p := p) (x := place N D).
    + intros k x [Hk ->]. split; [lia|].
      rewrite shr_1_place, pow2_succ by (pose proof (pow2_pos k); nia).
      f_equal. lia.
    + split; [done|]. by rewrite Z.mul_1_r.
Qed.

(** Rounding a placed fraction gives the nearest integer. *)
Lemma round_place (N D : Z) :
  0 < D ->
  round_nearest_even (shr_m (place N D)) (loc_of_shr_record (place N D)) = rne N D.
Proof.
  intros HD. unfold place, rne, round_nearest_even, loc_of_shr_record. simpl.
  repeat match goal with
         | |- context [Z.leb ?x ?y] => destruct (Z.leb_spec x y)
         | |- context [Z.ltb ?x ?y] => destruct (Z.ltb_spec x y)
         | |- context [Z.eqb ?x ?y] => destruct (Z.eqb_spec x y)
         end; simpl; try done; lia.
Qed.

Lemma place_exact (m : Z) : shr_record_of_loc m loc_Exact = place m 1.
Proof.
  unfold place. simpl. rewrite Z.div_1_r, Z.mod_1_r. reflexivity.
Qed.

(** The quotient and the location [SFdiv] hands to the rounding, for an
    even divisor. *)
Lemma place_div (N D : Z) :
  0 <= N -> 0 < D -> Z.even D = true ->
  shr_record_of_loc (N / D) (new_location D (N mod D)) = place N D.
Proof.
  intros HN HD Heven. unfold new_location, new_location_even. rewrite Heven.
  pose proof (Z.mod_pos_bound N D HD) as Hr.
  unfold place.
  destruct (Z.eqb_spec (N mod D) 0) as [H0|H0]; simpl.
  - rewrite H0. simpl. by destruct (Z.leb_spec D (2 * 0)); [lia|].
  - destruct (Z.compare_spec (2 * (N mod D)) D);
      repeat match goal with
             | |- context [Z.leb ?x ?y] => destruct (Z.leb_spec x y)
             | |- context [Z.eqb ?x ?y] => destruct (Z.eqb_spec x y)
             end; simpl; try done; lia.
Qed.

Ltac Zbool_cases :=
  repeat match goal with
         | |- context [Z.leb ?x ?y] => destruct (Z.leb_spec x y)
         | |- context [Z.ltb ?x ?y] => destruct (Z.ltb_spec x y)
         | |- context [Z.eqb ?x ?y] => destruct (Z.eqb_spec x y)
         end.

(** *** The nearest integer *)

Lemma rne_bounds (N D : Z) : 0 < D -> N / D <= rne N D <= N / D + 1.
Proof. intros HD. unfold rne. Zbool_cases; destruct (Z.even (N / D)); lia. Qed.

Lemma rne_le (N D b : Z) : 0 < D -> N <= b * D -> rne N D <= b.
Proof.
  intros HD Hb. pose proof (Z.div_mod N D ltac:(lia)) as Hdm.
  pose proof (Z.mod_pos_bound N D HD) as Hr.
  assert (N / D <= b) by nia.
  destruct (Z.eq_dec (N / D) b) as [Heq|Hne].
  - assert (N mod D = 0) by nia. unfold rne. Zbool_cases; lia.
  - pose proof (rne_bounds N D HD). lia.
Qed.

Lemma rne_ge (N D b : Z) : 0 < D -> b * D <= N -> b <= rne N D.
Proof.
  intros HD Hb. pose proof (Z.div_mod N D ltac:(lia)) as Hdm.
  pose proof (Z.mod_pos_bound N D HD) as Hr.
  assert (b <= N / D) by nia.
  pose proof (rne_bounds N D HD). lia.
Qed.

(** Past the middle of two integers the nearest one is the upper. *)
Lemma rne_above_half (N D b : Z) :
  0 < D -> (2 * b + 1) * D < 2 * N -> b + 1 <= rne N D.
Proof.
  intros HD Hb. pose proof (Z.div_mod N D ltac:(lia)) as Hdm.
  pose proof (Z.mod_pos_bound N D HD) as Hr.
  assert (b <= N / D) by nia.
  destruct (Z.eq_dec (N / D) b) as [Heq|Hne].
  - assert (D < 2 * (N mod D)) by nia. unfold rne. Zbool_cases; lia.
  - pose proof (rne_bounds N D HD). lia.
Qed.

(** *** The rounding of [SpecFloat] *)

Lemma fexp_normal (e : Z) : -1021 <= e -> fexp 53 1024 e = e - 53.
Proof. intros He. unfold fexp, emin. lia. Qed.

Lemma binary_round_aux_rounded (mx : positive) (ex : Z) (lx : location) (N D : Z) :
  0 < N -> 0 < D ->
  shr_record_of_loc (Zpos mx) lx = place N D ->
  53 <= Zdigits2 (Zpos mx) ->
  -1021 <= ex + Zdigits2 (Zpos mx) <= 1023 ->
  binary_round_aux 53 1024 false (Zpos mx) ex lx = rounded N D ex.
Proof.
  intros HN HD Hplace Hd Hrange.
  assert (N / D = Zpos mx) as Hq.
  { apply (f_equal shr_m) in Hplace. simpl in Hplace.
    rewrite <- Hplace. by destruct lx as [|[]]. }
  unfold rounded. rewrite Hq.
  pose proof (Zdigits2_bounds mx) as [Hlo Hhi].
  remember (Zdigits2 (Zpos mx)) as d eqn:Ed.
  unfold binary_round_aux, shr_fexp. rewrite <- Ed, Hplace.
  rewrite fexp_normal by lia.
  replace (d + ex - 53 - ex) with (d - 53) by lia.
  rewrite shr_place by lia.
  rewrite round_place by (pose proof (pow2_pos (d - 53)); nia).
  set (n := d - 53) in *.
  assert (0 < 2 ^ n) as Hpow by (apply pow2_pos; lia).
  assert (2 ^ (d - 1) = 2 ^ 52 * 2 ^ n) as Hlow
      by (rewrite <- Z.pow_add_r by lia; f_equal; lia).
  assert (2 ^ d = 2 ^ 53 * 2 ^ n) as Hhigh
      by (rewrite <- Z.pow_add_r by lia; f_equal; lia).
  pose proof (Z.div_mod N D ltac:(lia)) as Hdm.
  pose proof (Z.mod_pos_bound N D HD) as Hr.
  assert (2 ^ 52 <= rne N (D * 2 ^ n)) as Hm_lo by (apply rne_ge; nia).
  assert (rne N (D * 2 ^ n) <= 2 ^ 53) as Hm_hi by (apply rne_le; nia).
  remember (rne N (D * 2 ^ n)) as m eqn:Em.
  destruct (Z.eqb_spec m (2 ^ 53)) as [Hcarry|Hcarry].
  - rewrite Hcarry. rewrite place_exact.
    replace (Zdigits2 (2 ^ 53)) with 54 by reflexivity.
    rewrite fexp_normal by lia.
    replace (54 + (ex + n) - 53 - (ex + n)) with 1 by lia.
    rewrite shr_place by lia. simpl shr_m.
    replace (2 ^ 53 / (1 * 2 ^ 1)) with (2 ^ 52) by reflexivity.
    destruct (Z.leb_spec (ex + n + 1) (1024 - 53)); [reflexivity|lia].
  - rewrite place_exact.
    rewrite (Zdigits2_unique m 53) by lia.
    rewrite fexp_normal by lia.
    replace (53 + (ex + n) - 53 - (ex + n)) with 0 by lia.
    rewrite shr_place by lia. simpl shr_m.
    rewrite Z.mul_1_l, Z.pow_0_r, Z.div_1_r.
    destruct m as [|pm|pm]; try lia.
    destruct (Z.leb_spec (ex + n + 0) (1024 - 53)); [|lia].
    rewrite Z.add_0_r. reflexivity.
Qed.

(** *** The order of positive finite numbers *)

Lemma SFleb_finite (m1 m2 : positive) (e1 e2 : Z) :
  SFleb (S754_finite false m1 e1) (S754_finite false m2 e2) = true
  <-> e1 < e2 \/ (e1 = e2 /\ Zpos m1 <= Zpos m2).
Proof.
  unfold SFleb, SFcompare.
  destruct (Z.compare_spec e1 e2) as [Heq|Hlt|Hgt].
  - change (Pos.compare_cont Eq m1 m2) with (Pos.compare m1 m2).
    destruct (Pos.compare_spec m1 m2); split; try done; try lia.
  - split; [lia|done].
  - split; [done|lia].
Qed.

Lemma SFltb_finite (m1 m2 : positive) (e1 e2 : Z) :
  SFltb (S754_finite false m1 e1) (S754_finite false m2 e2) = true
  <-> e1 < e2 \/ (e1 = e2 /\ Zpos m1 < Zpos m2).
Proof.
  unfold SFltb, SFcompare.
  destruct (Z.compare_spec e1 e2) as [Heq|Hlt|Hgt].
  - change (Pos.compare_cont Eq m1 m2) with (Pos.compare m1 m2).
    destruct (Pos.compare_spec m1 m2); split; try done; try lia.
  - split; [lia|done].
  - split; [done|lia].
Qed.

(** *** What [rounded] is *)

Section Rounded.
Variables N D e : Z.
Hypothesis HN : 0 < N.
Hypothesis HD : 0 < D.
Hypothesis Hdigits : 53 <= Zdigits2 (N / D).

Lemma rounded_quotient_bounds :
  0 <= Zdigits2 (N / D) - 53
  /\ 0 < 2 ^ (Zdigits2 (N / D) - 53)
  /\ 2 ^ 52 * 2 ^ (Zdigits2 (N / D) - 53) * D <= N
      < 2 ^ 53 * 2 ^ (Zdigits2 (N / D) - 53) * D.
Proof.
  pose proof (Z.div_mod N D ltac:(lia)) as Hdm.
  pose proof (Z.mod_pos_bound N D HD) as Hr.
  revert Hdigits Hdm. generalize (N / D). intros q Hdigits Hdm.
  destruct q as [|q|q];
    [simpl in Hdigits; lia| |pose proof (Pos2Z.neg_is_neg q); nia].
  pose proof (Zdigits2_bounds q) as [Hlo Hhi].
  set (n := Zdigits2 (Z.pos q) - 53) in *.
  assert (0 < 2 ^ n) as Hpow by (apply pow2_pos; lia).
  split; [lia|]. split; [done|].
  replace (2 ^ (Zdigits2 (Zpos q) - 1)) with (2 ^ 52 * 2 ^ n) in Hlo
    by (rewrite <- Z.pow_add_r by lia; f_equal; lia).
  replace (2 ^ Zdigits2 (Zpos q)) with (2 ^ 53 * 2 ^ n) in Hhi
    by (rewrite <- Z.pow_add_r by lia; f_equal; lia).
  nia.
Qed.

Lemma rounded_mantissa_bounds :
  2 ^ 52 <= rne N (D * 2 ^ (Zdigits2 (N / D) - 53)) <= 2 ^ 53.
Proof.
  destruct rounded_quotient_bounds as (Hn & Hpow & Hlo & Hhi).
  set (n := Zdigits2 (N / D) - 53) in *.
  split; [apply rne_ge|apply rne_le]; nia.
Qed.

(** [rounded] is a normal number. *)
Lemma rounded_finite :
  exists m e', rounded N D e = S754_finite false m e'
               /\ 2 ^ 52 <= Zpos m < 2 ^ 53
               /\ e + (Zdigits2 (N / D) - 53) <= e'
                  <= e + (Zdigits2 (N / D) - 53) + 1.
Proof.
  pose proof rounded_mantissa_bounds as [Hlo Hhi].
  set (n := Zdigits2 (N / D) - 53) in *.
  unfold rounded. fold n.
  destruct (Z.eqb_spec (rne N (D * 2 ^ n)) (2 ^ 53)) as [Hc|Hc].
  - eexists _, _. split; [reflexivity|]. split; [done|lia].
  - eexists _, _. split; [reflexivity|].
    rewrite Z2Pos.id by lia. lia.
Qed.

(** A number that bounds the fraction from above bounds what it rounds
    to. *)
Lemma rounded_le (mB : positive) (eB : Z) :
  2 ^ 52 <= Zpos mB < 2 ^ 53 ->
  e <= eB ->
  N <= Zpos mB * 2 ^ (eB - e) * D ->
  SFleb (rounded N D e) (S754_finite false mB eB) = true.
Proof.
  intros HmB He Hbound.
  destruct rounded_quotient_bounds as (Hn & Hpow & Hlo & Hhi).
  pose proof rounded_mantissa_bounds as [Hm_lo Hm_hi].
  set (n := Zdigits2 (N / D) - 53) in *.
  assert (n <= eB - e) as Hj.
  { destruct (Z.le_gt_cases n (eB - e)) as [|Hlt]; [done|exfalso].
    assert (2 * 2 ^ (eB - e) <= 2 ^ n).
    { rewrite <- pow2_succ by lia. apply Z.pow_le_mono_r; lia. }
    assert (0 < 2 ^ (eB - e)) by (apply pow2_pos; lia).
    assert (0 < 2 ^ (eB - e) * D) by nia.
    assert (2 * (2 ^ (eB - e) * D) <= 2 ^ n * D) by nia.
    assert (Zpos mB * (2 ^ (eB - e) * D) < 2 ^ 53 * (2 ^ (eB - e) * D)) by nia.
    lia. }
  assert (2 ^ (eB - e) = 2 ^ (eB - e - n) * 2 ^ n) as Hsplit
      by (rewrite <- Z.pow_add_r by lia; f_equal; lia).
  assert (0 < 2 ^ (eB - e - n)) as Hpj by (apply pow2_pos; lia).
  assert (rne N (D * 2 ^ n) <= Zpos mB * 2 ^ (eB - e - n)) as Hm
      by (apply rne_le; nia).
  unfold rounded. fold n.
  destruct (Z.eqb_spec (rne N (D * 2 ^ n)) (2 ^ 53)) as [Hc|Hc];
    apply SFleb_finite.
  - destruct (Z.eq_dec (eB - e - n) 0) as [H0|H0].
    + rewrite H0, Z.pow_0_r in Hm. lia.
    + destruct (Z.eq_dec (eB - e - n) 1) as [H1|H1]; [|lia].
      right. split; [lia|]. rewrite Z2Pos.id by lia. lia.
  - destruct (Z.eq_dec (eB - e - n) 0) as [H0|H0]; [|lia].
    rewrite H0, Z.pow_0_r in Hm. right. split; [lia|].
    rewrite Z2Pos.id by lia. lia.
Qed.

(** A number that bounds the fraction from below bounds what it rounds
    to. *)
Lemma rounded_ge (mB : positive) (eB : Z) :
  2 ^ 52 <= Zpos mB < 2 ^ 53 ->
  (e + (Zdigits2 (N / D) - 53) <= eB -> Zpos mB * 2 ^ (eB - e) * D <= N) ->
  SFleb (S754_finite false mB eB) (rounded N D e) = true.
Proof.
  intros HmB Hbound.
  destruct rounded_quotient_bounds as (Hn & Hpow & Hlo & Hhi).
  pose proof rounded_mantissa_bounds as [Hm_lo Hm_hi].
  set (n := Zdigits2 (N / D) - 53) in *.
  unfold rounded. fold n.
  destruct (Z.le_gt_cases (e + n) eB) as [Hle|Hgt].
  - specialize (Hbound Hle).
    assert (2 ^ (eB - e) = 2 ^ (eB - e - n) * 2 ^ n) as Hsplit
        by (rewrite <- Z.pow_add_r by lia; f_equal; lia).
    assert (0 < 2 ^ (eB - e - n)) as Hpj by (apply pow2_pos; lia).
    assert (eB - e - n = 0) as H0.
    { destruct (Z.eq_dec (eB - e - n) 0) as [|Hne]; [done|exfalso].
      assert (2 <= 2 ^ (eB - e - n)).
      { change 2 with (2 ^ 1) at 1. apply Z.pow_le_mono_r; lia. }
      assert (2 ^ 53 <= Zpos mB * 2 ^ (eB - e - n)) by nia.
      assert (0 < 2 ^ n * D) by nia.
      assert (2 ^ 53 * (2 ^ n * D) <= Zpos mB * 2 ^ (eB - e - n) * (2 ^ n * D))
        by nia.
      rewrite Hsplit in Hbound. lia. }
    rewrite H0, Z.pow_0_r in Hsplit.
    assert (Zpos mB <= rne N (D * 2 ^ n)) as Hm by (apply rne_ge; nia).
    destruct (Z.eqb_spec (rne N (D * 2 ^ n)) (2 ^ 53)) as [Hc|Hc];
      apply SFleb_finite; [lia|].
    right. split; [lia|]. rewrite Z2Pos.id by lia. lia.
  - destruct (Z.eqb_spec (rne N (D * 2 ^ n)) (2 ^ 53)) as [Hc|Hc];
      apply SFleb_finite; lia.
Qed.

(** A fraction past the middle of a number and the next one rounds to more
    than that number. *)
Lemma rounded_above_half (mB : positive) (eB : Z) :
  2 ^ 52 <= Zpos mB < 2 ^ 53 ->
  e + (Zdigits2 (N / D) - 53) = eB ->
  (2 * Zpos mB + 1) * (D * 2 ^ (Zdigits2 (N / D) - 53)) < 2 * N ->
  SFltb (S754_finite false mB eB) (rounded N D e) = true.
Proof.
  intros HmB He Hbound.
  destruct rounded_quotient_bounds as (Hn & Hpow & Hlo & Hhi).
  pose proof rounded_mantissa_bounds as [Hm_lo Hm_hi].
  set (n := Zdigits2 (N / D) - 53) in *.
  assert (Zpos mB + 1 <= rne N (D * 2 ^ n)) as Hm
      by (apply rne_above_half; nia).
  unfold rounded. fold n.
  destruct (Z.eqb_spec (rne N (D * 2 ^ n)) (2 ^ 53)) as [Hc|Hc];
    apply SFltb_finite; [lia|].
  right. split; [lia|]. rewrite Z2Pos.id by lia. lia.
Qed.
End Rounded.

Lemma Zdigits2_ge (z k : Z) : 0 < z -> 2 ^ (k - 1) <= z -> k <= Zdigits2 z.
Proof.
  intros Hz Hk. destruct z as [|p|p]; try lia.
  pose proof (Zdigits2_bounds p) as [_ Hhi].
  destruct (Z.le_gt_cases k (Zdigits2 (Zpos p))) as [|Hgt]; [done|exfalso].
  assert (2 ^ Zdigits2 (Zpos p) <= 2 ^ (k - 1))
    by (apply Z.pow_le_mono_r; simpl in *; lia).
  lia.
Qed.

Lemma Zdigits2_le (z k : Z) : 0 < z -> 0 <= k -> z < 2 ^ k -> Zdigits2 z <= k.
Proof.
  intros Hz Hk Hlt. destruct z as [|p|p]; try lia.
  pose proof (Zdigits2_bounds p) as [Hlo _].
  destruct (Z.le_gt_cases (Zdigits2 (Zpos p)) k) as [|Hgt]; [done|exfalso].
  assert (2 ^ k <= 2 ^ (Zdigits2 (Zpos p) - 1))
    by (apply Z.pow_le_mono_r; lia).
  lia.
Qed.

Lemma Pos_iter_xO (p k : positive) :
  Zpos (Pos.iter xO p k) = Zpos p * 2 ^ Zpos k.
Proof.
  induction k as [|k IH] using Pos.peano_ind.
  - simpl. lia.
  - rewrite Pos.iter_succ, Pos2Z.inj_xO, IH, Pos2Z.inj_succ.
    unfold Z.succ. rewrite pow2_succ by lia. lia.
Qed.

Lemma shl_align_spec (mx : positive) (ex ex' : Z) :
  ex' <= ex ->
  shl_align mx ex ex' = (Z.to_pos (Zpos mx * 2 ^ (ex - ex')), ex').
Proof.
  intros Hle. unfold shl_align.
  destruct (ex' - ex) as [|k|k] eqn:Hsub; try lia.
  - replace (ex - ex') with 0 by lia. rewrite Z.mul_1_r. simpl.
    f_equal. lia.
  - replace (ex - ex') with (Zpos k) by lia.
    by rewrite <- Pos_iter_xO, Pos2Z.id.
Qed.

Lemma shl_align_keep (mx : positive) (ex ex' : Z) :
  ex <= ex' -> shl_align mx ex ex' = (mx, ex).
Proof.
  intros Hle. unfold shl_align. destruct (ex' - ex) as [|k|k] eqn:Hsub; try done. lia.
Qed.

(** An exact number of 53 bits is its own rounding. *)
Lemma binary_round_aux_exact (m : positive) (e : Z) :
  2 ^ 52 <= Zpos m < 2 ^ 53 -> -1074 <= e <= 970 ->
  binary_round_aux 53 1024 false (Zpos m) e loc_Exact = S754_finite false m e.
Proof.
  intros Hm He.
  assert (Zdigits2 (Zpos m) = 53) as Hd by (apply Zdigits2_unique; lia).
  rewrite (binary_round_aux_rounded m e loc_Exact (Zpos m) 1); try lia.
  - unfold rounded. rewrite Z.div_1_r, Hd.
    replace (53 - 53) with 0 by lia. rewrite Z.pow_0_r, Z.mul_1_r.
    unfold rne. rewrite Z.mod_1_r, Z.div_1_r.
    change (2 * 0 <? 1) with true. cbv iota.
    destruct (Z.eqb_spec (Zpos m) (2 ^ 53)); [lia|].
    by rewrite Z.add_0_r, Pos2Z.id.
  - apply place_exact.
Qed.

(** [float64(z)] for a positive integer of at most 53 bits. *)
Lemma float64_pos (z : Z) :
  0 < z < 2 ^ 53 ->
  float64 z
  = S754_finite false (Z.to_pos (z * 2 ^ (53 - Zdigits2 z))) (Zdigits2 z - 53).
Proof.
  intros Hz. destruct z as [|p|p]; try lia.
  pose proof (Zdigits2_bounds p) as [Hlo Hhi].
  assert (1 <= Zdigits2 (Zpos p)) as Hd1 by (simpl; lia).
  assert (Zdigits2 (Zpos p) <= 53) as Hd53 by (apply Zdigits2_le; lia).
  unfold float64, binary_normalize, binary_round.
  change (Z.pos (digits2_pos p)) with (Zdigits2 (Zpos p)).
  set (d := Zdigits2 (Zpos p)) in *.
  rewrite Z.add_0_r, fexp_normal by lia.
  rewrite shl_align_spec by lia.
  replace (0 - (d - 53)) with (53 - d) by lia.
  assert (0 < 2 ^ (53 - d)) by (apply pow2_pos; lia).
  assert (2 ^ 52 = 2 ^ (d - 1) * 2 ^ (53 - d)) as H52
      by (rewrite <- Z.pow_add_r by lia; f_equal; lia).
  assert (2 ^ 53 = 2 ^ d * 2 ^ (53 - d)) as H53
      by (rewrite <- Z.pow_add_r by lia; f_equal; lia).
  rewrite <- (Z2Pos.id (Zpos p * 2 ^ (53 - d))) at 1 by nia.
  apply binary_round_aux_exact; [|lia].
  rewrite Z2Pos.id by nia. nia.
Qed.

(** The divisor of [Hours]: one hour in nanoseconds, which is exact. *)
Lemma float64_hour :
  float64 3600000000000 = S754_finite false 7372800000000000 (-11).
Proof. reflexivity. Qed.

(** The threshold, 4320 hours. *)
Lemma float64_threshold :
  float64 (6 * 30 * 24) = S754_finite false 4749890231992320 (-40).
Proof. reflexivity. Qed.

(** Dividing a normal number by one hour. *)
Lemma f64div_hour (mx : positive) (ex : Z) :
  2 ^ 52 <= Zpos mx < 2 ^ 53 -> -900 <= ex <= 900 ->
  f64div (S754_finite false mx ex) (S754_finite false 7372800000000000 (-11))
  = rounded (Zpos mx * 2 ^ 53) 7372800000000000 (ex - 42).
Proof.
  intros Hmx Hex.
  assert (Zdigits2 (Zpos mx) = 53) as Hd by (apply Zdigits2_unique; lia).
  unfold f64div, SFdiv, SFdiv_core_binary. rewrite Hd.
  change (Zdigits2 7372800000000000) with 53.
  replace (53 + ex - (53 + -11)) with (ex + 11) by lia.
  rewrite fexp_normal by lia.
  replace (ex - -11) with (ex + 11) by lia.
  rewrite Z.min_l by lia.
  replace (ex + 11 - (ex + 11 - 53)) with 53 by lia.
  cbv beta iota. rewrite Z.shiftl_mul_pow2 by lia.
  set (N := Zpos mx * 2 ^ 53). set (D := 7372800000000000).
  assert (0 < N) as HN by (subst N; lia).
  assert (0 < D) as HD by done.
  pose proof (Z.div_mod N D ltac:(lia)) as Hdm.
  pose proof (Z.mod_pos_bound N D HD) as Hr.
  assert (2 ^ 52 <= N / D < 2 ^ 54) as Hq.
  { split.
    - apply Z.div_le_lower_bound; [done|]. subst N D. lia.
    - apply Z.div_lt_upper_bound; [done|]. subst N D. lia. }
  unfold Z.div, Z.modulo in Hq, Hdm, Hr |- *.
  destruct (Z.div_eucl N D) as [q r] eqn:Heucl. simpl in Hq, Hdm, Hr.
  destruct q as [|q|q]; try lia.
  replace (ex + 11 - 53) with (ex - 42) by lia.
  assert (53 <= Zdigits2 (Zpos q)) by (apply Zdigits2_ge; lia).
  assert (Zdigits2 (Zpos q) <= 54) by (apply Zdigits2_le; lia).
  change (xorb false false) with false.
  apply binary_round_aux_rounded; try lia.
  replace (Zpos q) with (N / D) by (unfold Z.div; by rewrite Heucl).
  replace r with (N mod D) by (unfold Z.modulo; by rewrite Heucl).
  apply place_div; [lia|done|reflexivity].
Qed.

(** Adding two normal numbers, the one of lower exponent second. *)
Lemma f64add_finite (mh mf : positive) (eh ef : Z) :
  2 ^ 52 <= Zpos mh < 2 ^ 53 -> 2 ^ 52 <= Zpos mf < 2 ^ 53 ->
  ef <= eh -> -900 <= ef -> eh <= 900 ->
  f64add (S754_finite false mh eh) (S754_finite false mf ef)
  = rounded (Zpos mh * 2 ^ (eh - ef) + Zpos mf) 1 ef.
Proof.
  intros Hmh Hmf Hle Hef Heh.
  unfold f64add, SFadd. rewrite Z.min_r by lia.
  rewrite shl_align_spec by lia. rewrite (shl_align_keep mf) by lia.
  unfold cond_Zopp, fst.
  assert (0 < 2 ^ (eh - ef)) as Hp by (apply pow2_pos; lia).
  rewrite Z2Pos.id by nia.
  set (M := Zpos mh * 2 ^ (eh - ef) + Zpos mf).
  assert (2 ^ 53 <= M) as HM by (subst M; nia).
  assert (M < 2 ^ (54 + (eh - ef))) as HM'.
  { rewrite Z.pow_add_r by lia. subst M. nia. }
  destruct M as [|pM|pM] eqn:EM; try lia.
  assert (54 <= Zdigits2 (Zpos pM)) by (apply Zdigits2_ge; lia).
  assert (Zdigits2 (Zpos pM) <= 54 + (eh - ef)) by (apply Zdigits2_le; lia).
  unfold binary_normalize, binary_round.
  change (Z.pos (digits2_pos pM)) with (Zdigits2 (Zpos pM)).
  rewrite fexp_normal by lia. rewrite shl_align_keep by lia.
  apply binary_round_aux_rounded; try lia.
  apply place_exact.
Qed.

(** *** The fraction of an hour *)

(** The nanoseconds past the hour, divided by one hour: a normal number
    that is at most 1, and at least [9 * 2^-44] from two nanoseconds on. *)
Lemma fraction_of_hour (nsec : Z) :
  0 < nsec < Hour ->
  exists mf ef,
    f64div (float64 nsec) (float64 3600000000000) = S754_finite false mf ef
    /\ 2 ^ 52 <= Zpos mf < 2 ^ 53
    /\ -96 <= ef
    /\ (ef < -52 \/ (ef = -52 /\ Zpos mf <= 2 ^ 52))
    /\ (2 <= nsec -> -93 < ef \/ (ef = -93 /\ 9 * 2 ^ 49 <= Zpos mf)).
Proof.
  intros Hns. unfold Hour in Hns.
  assert (1 <= Zdigits2 nsec) as Hk1 by (apply Zdigits2_ge; simpl; lia).
  assert (Zdigits2 nsec <= 42) as Hk42 by (apply Zdigits2_le; lia).
  rewrite float64_pos, float64_hour by lia.
  destruct nsec as [|p|p]; try lia.
  pose proof (Zdigits2_bounds p) as [Hlo Hhi].
  set (k := Zdigits2 (Zpos p)) in *.
  assert (0 < 2 ^ (53 - k)) as Hp by (apply pow2_pos; lia).
  assert (2 ^ 52 = 2 ^ (k - 1) * 2 ^ (53 - k)) as H52
      by (rewrite <- Z.pow_add_r by lia; f_equal; lia).
  assert (2 ^ 53 = 2 ^ k * 2 ^ (53 - k)) as H53
      by (rewrite <- Z.pow_add_r by lia; f_equal; lia).
  rewrite f64div_hour by (rewrite ?Z2Pos.id by nia; nia).
  rewrite Z2Pos.id by nia.
  replace (k - 53 - 42) with (k - 95) by lia.
  set (N := Zpos p * 2 ^ (53 - k) * 2 ^ 53).
  set (D := 7372800000000000).
  assert (N = Zpos p * 2 ^ (106 - k)) as HN106.
  { subst N. rewrite <- Z.mul_assoc, <- Z.pow_add_r by lia. do 2 f_equal. lia. }
  assert (0 < 2 ^ (106 - k)) as Hp106 by (apply pow2_pos; lia).
  assert (0 < N) as HN by nia.
  assert (0 < D) as HD by done.
  assert (53 <= Zdigits2 (N / D)) as Hdig.
  { apply Zdigits2_ge.
    - apply Z.div_str_pos. subst N D. nia.
    - apply Z.div_le_lower_bound; [done|]. subst N D. nia. }
  destruct (rounded_quotient_bounds N D HN HD Hdig) as (Hn & _ & _ & _).
  destruct (rounded_finite N D (k - 95) HN HD Hdig) as (mf & ef & Hround & Hmf & Hef).
  exists mf, ef. rewrite Hround. split; [done|]. split; [done|]. split; [lia|].
  split.
  - (* at most 1 *)
    assert (SFleb (rounded N D (k - 95)) (S754_finite false (Z.to_pos (2 ^ 52)) (-52))
            = true) as Hle.
    { apply rounded_le; try done; try lia.
      replace (-52 - (k - 95)) with (43 - k) by lia.
      change (Z.pos (Z.to_pos (2 ^ 52))) with (2 ^ 52).
      assert (2 ^ 52 * 2 ^ (43 - k) * D = 3600000000000 * 2 ^ (106 - k)) as ->.
      { replace (106 - k) with (11 + 52 + (43 - k)) by lia.
        rewrite !Z.pow_add_r by lia. subst D. lia. }
      rewrite HN106. nia. }
    rewrite Hround in Hle. apply SFleb_finite in Hle.
    change (Z.pos (Z.to_pos (2 ^ 52))) with (2 ^ 52) in Hle. lia.
  - (* at least 9 * 2^-44 *)
    intros H2.
    assert (2 <= k) as Hk2 by (apply Zdigits2_ge; lia).
    assert (SFleb (S754_finite false (Z.to_pos (9 * 2 ^ 49)) (-93))
              (rounded N D (k - 95)) = true) as Hge.
    { apply rounded_ge; try done; try (simpl; lia).
      intros Hexp. assert (k = 2) as Hk by lia.
      rewrite HN106, Hk. replace (-93 - (2 - 95)) with 0 by lia.
      change (Z.pos (Z.to_pos (9 * 2 ^ 49))) with (9 * 2 ^ 49).
      subst D. lia. }
    rewrite Hround in Hge. apply SFleb_finite in Hge.
    change (Z.pos (Z.to_pos (9 * 2 ^ 49))) with (9 * 2 ^ 49) in Hge. lia.
Qed.

(** *** Whole hours *)

Lemma whole_hours_gt_threshold (hour : Z) :
  0 < hour < 2 ^ 53 ->
  f64gt (float64 hour) (float64 (6 * 30 * 24)) = (4320 <? hour).
Proof.
  intros Hh. rewrite float64_pos, float64_threshold by done. unfold f64gt.
  destruct hour as [|p|p]; try lia.
  pose proof (Zdigits2_bounds p) as [Hlo Hhi].
  assert (1 <= Zdigits2 (Zpos p)) as Hd1 by (simpl; lia).
  assert (Zdigits2 (Zpos p) <= 53) as Hd53 by (apply Zdigits2_le; lia).
  set (d := Zdigits2 (Zpos p)) in *.
  assert (0 < 2 ^ (53 - d)) as Hp by (apply pow2_pos; lia).
  destruct (Z.ltb_spec 4320 (Zpos p)) as [Hgt|Hle].
  - apply SFltb_finite. rewrite Z2Pos.id by nia.
    assert (13 <= d) by (apply Zdigits2_ge; lia).
    destruct (Z.eq_dec d 13) as [->|]; [right|left; lia].
    split; [lia|]. change (2 ^ (53 - 13)) with 1099511627776. lia.
  - destruct (SFltb _ _) eqn:Hlt; [exfalso|done].
    apply SFltb_finite in Hlt. rewrite Z2Pos.id in Hlt by nia.
    assert (d <= 13) by (apply Zdigits2_le; lia).
    destruct Hlt as [|[Hd Hm]]; [lia|].
    assert (d = 13) as Hd13 by lia. rewrite Hd13 in Hm.
    change (2 ^ (53 - 13)) with 1099511627776 in Hm. lia.
Qed.

(** *** Hours and a fraction *)

(** The sum [Hours] rounds, for a positive number of whole hours. *)
Lemma hours_sum (hour : Z) (mf : positive) (ef : Z) :
  0 < hour < 2 ^ 22 ->
  2 ^ 52 <= Zpos mf < 2 ^ 53 -> -96 <= ef -> ef <= -52 ->
  f64add (float64 hour) (S754_finite false mf ef)
  = rounded (hour * 2 ^ (- ef) + Zpos mf) 1 ef.
Proof.
  intros Hh Hmf Hef Hef'. rewrite float64_pos by lia.
  destruct hour as [|p|p]; try lia.
  pose proof (Zdigits2_bounds p) as [Hlo Hhi].
  assert (1 <= Zdigits2 (Zpos p)) as Hd1 by (simpl; lia).
  assert (Zdigits2 (Zpos p) <= 22) as Hd22 by (apply Zdigits2_le; lia).
  set (d := Zdigits2 (Zpos p)) in *.
  assert (0 < 2 ^ (53 - d)) as Hp by (apply pow2_pos; lia).
  assert (2 ^ 52 = 2 ^ (d - 1) * 2 ^ (53 - d)) as H52
      by (rewrite <- Z.pow_add_r by lia; f_equal; lia).
  assert (2 ^ 53 = 2 ^ d * 2 ^ (53 - d)) as H53
      by (rewrite <- Z.pow_add_r by lia; f_equal; lia).
  rewrite f64add_finite; try lia; [|rewrite Z2Pos.id by nia; nia].
  rewrite Z2Pos.id by nia. do 2 f_equal.
  rewrite <- Z.mul_assoc, <- Z.pow_add_r by lia. do 2 f_equal. lia.
Qed.

Section HoursAndFraction.
Variables (hour : Z) (mf : positive) (ef : Z).
Hypothesis Hhour : 0 < hour < 2 ^ 22.
Hypothesis Hmf : 2 ^ 52 <= Zpos mf < 2 ^ 53.
Hypothesis Hef : -96 <= ef.
Hypothesis Hone : ef < -52 \/ (ef = -52 /\ Zpos mf <= 2 ^ 52).

Lemma hours_sum_facts :
  0 < 2 ^ (- ef) /\ Zpos mf <= 2 ^ (- ef)
  /\ 2 ^ (- ef) = 2 ^ 40 * 2 ^ (-40 - ef)
  /\ 0 < hour * 2 ^ (- ef) + Zpos mf
  /\ 53 <= Zdigits2 ((hour * 2 ^ (- ef) + Zpos mf) / 1).
Proof.
  assert (0 < 2 ^ (- ef)) as HP by (apply pow2_pos; lia).
  assert (Zpos mf <= 2 ^ (- ef)) as HmP.
  { destruct Hone as [Hlt|[-> Hm]]; [|done].
    assert (2 ^ 53 <= 2 ^ (- ef)) by (apply Z.pow_le_mono_r; lia). lia. }
  split; [done|]. split; [done|]. split.
  { rewrite <- Z.pow_add_r by lia. f_equal. lia. }
  split; [nia|].
  rewrite Z.div_1_r. apply Zdigits2_ge; nia.
Qed.

(** Below 4320 whole hours the sum is not above the threshold. *)
Lemma hours_below_threshold :
  hour <= 4319 ->
  f64gt (f64add (float64 hour) (S754_finite false mf ef)) (float64 (6 * 30 * 24))
  = false.
Proof.
  intros Hlow. destruct hours_sum_facts as (HP & HmP & Hsplit & HM & Hdig).
  rewrite hours_sum, float64_threshold by lia. unfold f64gt.
  set (M := hour * 2 ^ (- ef) + Zpos mf) in *.
  assert (SFleb (rounded M 1 ef) (S754_finite false 4749890231992320 (-40)) = true)
    as Hle.
  { apply rounded_le; try done; try lia.
    rewrite Z.mul_1_r.
    assert (0 < 2 ^ (-40 - ef)) by (apply pow2_pos; lia).
    subst M. nia. }
  destruct (rounded_finite M 1 ef HM ltac:(lia) Hdig) as (m & e & Hr & Hm & He).
  rewrite Hr in *.
  apply SFleb_finite in Hle.
  destruct (SFltb _ _) eqn:Hlt; [exfalso|done].
  apply SFltb_finite in Hlt. lia.
Qed.

(** From 4321 whole hours on the sum is above the threshold. *)
Lemma hours_above_threshold :
  4321 <= hour ->
  f64gt (f64add (float64 hour) (S754_finite false mf ef)) (float64 (6 * 30 * 24))
  = true.
Proof.
  intros Hhigh. destruct hours_sum_facts as (HP & HmP & Hsplit & HM & Hdig).
  rewrite hours_sum, float64_threshold by lia. unfold f64gt.
  set (M := hour * 2 ^ (- ef) + Zpos mf) in *.
  assert (SFleb (S754_finite false 4750989743620096 (-40)) (rounded M 1 ef) = true)
    as Hge.
  { apply rounded_ge; try done; try lia.
    intros _. rewrite Z.mul_1_r.
    assert (0 < 2 ^ (-40 - ef)) by (apply pow2_pos; lia).
    subst M. nia. }
  destruct (rounded_finite M 1 ef HM ltac:(lia) Hdig) as (m & e & Hr & Hm & He).
  rewrite Hr in *.
  apply SFleb_finite in Hge. apply SFltb_finite. lia.
Qed.

(** At 4320 whole hours the sum is above the threshold when the fraction
    is more than half the step to the next number. *)
Lemma hours_at_threshold :
  hour = 4320 ->
  -93 < ef \/ (ef = -93 /\ 9 * 2 ^ 49 <= Zpos mf) ->
  f64gt (f64add (float64 hour) (S754_finite false mf ef)) (float64 (6 * 30 * 24))
  = true.
Proof.
  intros Hat Hfrac. destruct hours_sum_facts as (HP & HmP & Hsplit & HM & Hdig).
  rewrite hours_sum, float64_threshold by lia. unfold f64gt.
  set (M := hour * 2 ^ (- ef) + Zpos mf) in *.
  assert (0 < 2 ^ (-40 - ef)) as HQ by (apply pow2_pos; lia).
  assert (Zdigits2 (M / 1) = 13 - ef) as Hd.
  { rewrite Z.div_1_r. apply Zdigits2_unique; [lia|].
    replace (13 - ef - 1) with (12 + - ef) by lia.
    replace (13 - ef) with (13 + - ef) by lia.
    rewrite !Z.pow_add_r by lia. subst M. nia. }
  apply rounded_above_half; try done; try lia.
  rewrite Hd. replace (13 - ef - 53) with (-40 - ef) by lia.
  rewrite Z.mul_1_l.
  assert (2 ^ (-40 - ef) < 2 * Zpos mf) as Hhalf.
  { destruct Hfrac as [Hgt|[-> Hm]].
    - assert (2 ^ (-40 - ef) <= 2 ^ 52) by (apply Z.pow_le_mono_r; lia). lia.
    - replace (-40 - -93) with 53 by lia. lia. }
  subst M. nia.
Qed.
End HoursAndFraction.

(** *** Zero and negative durations *)

Lemma binary_round_aux_negative (m e : Z) (l : location) :
  notPositive (binary_round_aux 53 1024 true m e l) = true.
Proof.
  unfold binary_round_aux.
  destruct (shr_fexp 53 1024 m e l) as [mrs' e'].
  destruct (shr_fexp 53 1024 _ e' loc_Exact) as [mrs'' e''].
  destruct (shr_m mrs'') as [|p|p]; try done.
  by destruct (e'' <=? 1024 - 53).
Qed.

Lemma float64_notPositive (z : Z) : z <= 0 -> notPositive (float64 z) = true.
Proof.
  intros Hz. destruct z as [|p|p]; try lia; [done|].
  unfold float64, binary_normalize, binary_round.
  destruct (shl_align p 0 _) as [mz ez]. apply binary_round_aux_negative.
Qed.

Lemma f64div_notPositive (x : spec_float) (my : positive) (ey : Z) :
  notPositive x = true ->
  notPositive (f64div x (S754_finite false my ey)) = true.
Proof.
  unfold f64div, SFdiv. destruct x as [[]|[]| |[] mx ex]; try done.
  intros _. destruct (SFdiv_core_binary 53 1024 _ _ _ _) as [[mz ez] lz].
    apply binary_round_aux_negative.
Qed.

Lemma f64add_notPositive (x y : spec_float) :
  notPositive x = true -> notPositive y = true ->
  notPositive (f64add x y) = true.
Proof.
  unfold f64add, SFadd.
  destruct x as [[]|[]| |[] mx ex], y as [[]|[]| |[] my ey]; try done.
  intros _ _. unfold cond_Zopp.
  set (a := (shl_align mx ex (ex `min` ey)).1).
  set (b := (shl_align my ey (ex `min` ey)).1).
  change (- Zpos a + - Zpos b) with (Zneg (a + b)). clearbody a b.
  unfold binary_normalize, binary_round.
  destruct (shl_align _ _ _) as [mz ez]. apply binary_round_aux_negative.
Qed.

Lemma f64gt_notPositive (x : spec_float) (m : positive) (e : Z) :
  notPositive x = true -> f64gt x (S754_finite false m e) = false.
Proof. by destruct x as [s|[]| |[] mx ex]. Qed.

Lemma Hours_negative (d : Z) :
  d <= 0 -> f64gt (Hours d) (float64 (6 * 30 * 24)) = false.
Proof.
  intros Hd. rewrite float64_threshold. apply f64gt_notPositive.
  unfold Hours. rewrite float64_hour.
  pose proof (Z.quot_rem' d Hour) as Hqr.
  pose proof (Z.rem_bound_pos_neg d Hour ltac:(done) Hd) as Hrem.
  unfold Hour in *.
  apply f64add_notPositive.
  - apply float64_notPositive. lia.
  - apply f64div_notPositive, float64_notPositive. lia.
Qed.

(** *** The comparison of [timeFormat] *)

Lemma Hours_nonnegative (d : Z) :
  0 <= d <= maxDuration ->
  f64gt (Hours d) (float64 (6 * 30 * 24)) = (4320 * Hour + 2 <=? d).
Proof.
  intros Hd. unfold maxDuration in Hd. unfold Hours.
  rewrite Z.quot_div_nonneg, Z.rem_mod_nonneg by (unfold Hour; lia).
  pose proof (Z.div_mod d Hour ltac:(unfold Hour; lia)) as Hdm.
  pose proof (Z.mod_pos_bound d Hour ltac:(unfold Hour; lia)) as Hr.
  assert (0 <= d / Hour < 2 ^ 22) as Hq.
  { split; [apply Z.div_pos; unfold Hour; lia|].
    apply Z.div_lt_upper_bound; unfold Hour; lia. }
  set (hour := d / Hour) in *. set (nsec := d mod Hour) in *.
  destruct (Z.eq_dec nsec 0) as [Hns0|Hns0].
  - (* a whole number of hours *)
    rewrite Hns0. change (f64div (float64 0) _) with (S754_zero false).
    destruct (Z.eq_dec hour 0) as [Hh0|Hh0].
    + rewrite Hh0. simpl. symmetry. apply Z.leb_gt. unfold Hour in *. lia.
    + assert (f64add (float64 hour) (S754_zero false) = float64 hour) as ->.
      { rewrite float64_pos by lia. reflexivity. }
      rewrite whole_hours_gt_threshold by lia.
      unfold Hour in *. destruct (Z.ltb_spec 4320 hour), (Z.leb_spec (4320 * (60 * 60 * 1000000000) + 2) d); lia.
  - destruct (fraction_of_hour nsec ltac:(lia))
      as (mf & ef & Hfrac & Hmf & Hef & Hone & Htwo).
    rewrite Hfrac.
    destruct (Z.eq_dec hour 0) as [Hh0|Hh0].
    + (* less than an hour *)
      rewrite Hh0. change (f64add (float64 0) (S754_finite false mf ef))
        with (S754_finite false mf ef).
      rewrite float64_threshold.
      transitivity false.
      * unfold f64gt. destruct (SFltb _ _) eqn:Hlt; [exfalso|done].
        apply SFltb_finite in Hlt. lia.
      * symmetry. apply Z.leb_gt. unfold Hour in *. lia.
    + destruct (Z_lt_le_dec hour 4320) as [Hlow|Hhigh].
      * rewrite hours_below_threshold by (try done; lia).
        symmetry. apply Z.leb_gt. unfold Hour in *. lia.
      * destruct (Z.eq_dec hour 4320) as [Hat|Hnat].
        -- destruct (Z.eq_dec nsec 1) as [Hns1|Hns1].
           ++ assert (d = 4320 * Hour + 1) as -> by (unfold Hour in *; lia).
              subst hour nsec.
              rewrite <- Hfrac. reflexivity.
           ++ rewrite hours_at_threshold by (try done; try lia; apply Htwo; lia).
              symmetry. apply Z.leb_le. unfold Hour in *. lia.
        -- rewrite hours_above_threshold by (try done; lia).
           symmetry. apply Z.leb_le. unfold Hour in *. lia.
Qed.

(** The layout of the modification time, for every age a [Duration] holds:
    year from two nanoseconds past 4320 hours on, time of day before. *)
Lemma timeFormat_spec (age : Z) :
  minDuration <= age <= maxDuration ->
  timeFormat age
  = if 4320 * Hour + 2 <=? age then "Jan _2 2006" else "Jan _2 15:04".
Proof.
  intros Hage. unfold timeFormat.
  destruct (Z_le_gt_dec age 0) as [Hneg|Hpos].
  - rewrite Hours_negative by done.
    destruct (Z.leb_spec (4320 * Hour + 2) age); [unfold Hour in *; lia|done].
  - by rewrite Hours_nonnegative by lia.
Qed.

Lemma Sub_range (t u : Z) : minDuration <= Sub t u <= maxDuration.
Proof.
  unfold Sub, minDuration, maxDuration.
  destruct (Z.ltb_spec (t - u) (- 2 ^ 63)); [lia|].
  destruct (Z.ltb_spec (2 ^ 63 - 1) (t - u)); lia.
Qed.

(** ** The claim about the modification time *)

(** C5, as the code has it. The line of an entry shows its modification
    time in the year layout when the time is older than 6 * 30 * 24 hours
    by two nanoseconds or more at the moment the line is made, and in the
    time-of-day layout otherwise: within the threshold, at it, and one
    nanosecond past it, where the age in hours rounds to the threshold. *)
Theorem modification_time_layout
    (w : World) (entry : DirEntry) (info : FileInfo) (n : nat) :
  Info entry = Ok info ->
  printDetailedEntry w entry n
  = Some (tt,
          [(Stdout,
            detailLine (permString (Mode info)) (Nlink (Sys info))
              (ownerName w (Uid (Sys info))) (groupName w (Gid (Sys info)))
              (Size info)
              (Format w (ModTime info)
                 (if 6 * 30 * 24 * Hour + 2 <=? Sub (Clock w n) (ModTime info)
                  then "Jan _2 2006" else "Jan _2 15:04"))
              (getFileNameWithIcon entry))],
          S n).
Proof.
  intros Hinfo. rewrite (printDetailedEntry_ok w entry info n Hinfo).
  by rewrite timeFormat_spec by apply Sub_range.
Qed.

Lemma modification_time_layout_witness :
  printDetailedEntry (Sample.world [Sample.orphan] (Ok 80) (6 * 30 * 24 * Hour + 2))
    Sample.orphan 0%nat
  = Some (tt,
          [(Stdout,
            "-rw-r--r-- 1 9999 9999   42 Jan _2 2006 " +:+ glyph 0xea7b
            +:+ "notes" +:+ nl)],
          1%nat).
Proof.
  apply (modification_time_layout
           (Sample.world [Sample.orphan] (Ok 80) (6 * 30 * 24 * Hour + 2))
           Sample.orphan (Sample.info 0x1a4 42 1 9999 9999 8) 0%nat).
  reflexivity.
Defined.

(** C5 as stated fails one nanosecond past the threshold: the time is
    strictly older than 6 * 30 * 24 hours, [Hours] gives exactly 4320, which
    is not greater than 4320, and the line shows the time of day. *)
Lemma one_nanosecond_past_threshold :
  let age := 6 * 30 * 24 * Hour + 1 in
  6 * 30 * 24 * Hour < age
  /\ Hours age = float64 (6 * 30 * 24)
  /\ timeFormat age = "Jan _2 15:04"
  /\ printDetailedEntry (Sample.world [Sample.orphan] (Ok 80) age) Sample.orphan 0%nat
     = Some (tt,
             [(Stdout,
               "-rw-r--r-- 1 9999 9999   42 Jan _2 15:04 " +:+ glyph 0xea7b
               +:+ "notes" +:+ nl)],
             1%nat).
Proof. repeat split; reflexivity. Qed.

(** ** The earlier revision *)

(** The earlier icon switch gives a directory the same symbol whatever its
    name, and gives each exact name the symbol the present one gives it. *)
Lemma Legacy_directory (name : string) (i : Result FileInfo) :
  Legacy.getFileNameWithIcon {| Name := name; IsDir := true; Info := i |}
  = directorySymbol +:+ name.
Proof. reflexivity. Qed.

Lemma Legacy_exact_names (i : Result FileInfo) :
  Forall (fun name =>
            Legacy.getFileNameWithIcon {| Name := name; IsDir := false; Info := i |}
            = getFileNameWithIcon {| Name := name; IsDir := false; Info := i |})
    exactNames.
Proof. repeat constructor. Qed.

(** The earlier comparison separates names that differ in case only. *)
Example Legacy_lessName_case :
  Legacy.lessName (Sample.gone "README") (Sample.gone "readme") = true
  /\ Legacy.lessName (Sample.gone "B") (Sample.gone "a") = true
  /\ lessName (Sample.gone "B") (Sample.gone "a") = false.
Proof. repeat split; reflexivity. Qed.

(** ** The scenarios of the specification *)

Example ext_samples :
  Ext "A.md" = ".md" /\ Ext "archive.tar.GZ" = ".GZ" /\ Ext "c" = EmptyString
  /\ Ext ".gitignore" = ".gitignore" /\ Ext "a.b/c" = EmptyString
  /\ Ext "trailing." = ".".
Proof. repeat split; reflexivity. Qed.

Example lower_samples :
  ToLower "b.TXT" = "b.txt" /\ ToLower "Makefile" = "makefile"
  /\ ToLower "@[`{" = "@[`{".
Proof. repeat split; reflexivity. Qed.

Example itoa_samples : itoa 9999 = "9999" /\ itoa 0 = "0" /\ itoa (-12) = "-12".
Proof. repeat split; reflexivity. Qed.

Example utf8_samples :
  utf8 0xe5ff = bytes [0xee; 0x97; 0xbf]
  /\ utf8 0xf0354 = bytes [0xf3; 0xb0; 0x8d; 0x94]
  /\ RuneCountInString (glyph 0xf0354 +:+ "A.md") = 6
  /\ len (glyph 0xf0354 +:+ "A.md") = 9.
Proof. repeat split; reflexivity. Qed.

(** The directory holding [b.TXT], [A.md], [c] and the directory [D] lists
    as [A.md], [b.TXT], [c], [D], on one line of an 80 column terminal. *)
Example scenario_compact :
  output (Run (Sample.world Sample.scenario (Ok 80) 0) false [])
  = Some [ (Stdout, glyph 0xf0354 +:+ "A.md     ");
           (Stdout, glyph 0xf15c +:+ "b.TXT    ");
           (Stdout, glyph 0xea7b +:+ "c        ");
           (Stdout, glyph 0xe5ff +:+ "D        ");
           (Stdout, nl) ].
Proof. reflexivity. Qed.

(** On a terminal of 20 columns the same names take one column each of
    eleven characters, and every name ends its line. *)
Example scenario_narrow :
  output (Run (Sample.world Sample.scenario (Ok 20) 0) false [])
  = Some [ (Stdout, glyph 0xf0354 +:+ "A.md     "); (Stdout, nl);
           (Stdout, glyph 0xf15c +:+ "b.TXT    "); (Stdout, nl);
           (Stdout, glyph 0xea7b +:+ "c        "); (Stdout, nl);
           (Stdout, glyph 0xe5ff +:+ "D        "); (Stdout, nl) ].
Proof. reflexivity. Qed.

Example scenario_long :
  output (Run (Sample.world Sample.scenario (Ok 80) 0) true [])
  = Some [ (Stdout, "total 12" +:+ nl);
           (Stdout, "-rw-r--r-- 1 root root  120 Jan _2 15:04 "
                    +:+ glyph 0xf0354 +:+ "A.md" +:+ nl);
           (Stdout, "-rw-r--r-- 1 root root    5 Jan _2 15:04 "
                    +:+ glyph 0xf15c +:+ "b.TXT" +:+ nl);
           (Stdout, "-rw-r--r-- 1 root root    0 Jan _2 15:04 "
                    +:+ glyph 0xea7b +:+ "c" +:+ nl);
           (Stdout, "drwxr-xr-x 2 root root 4096 Jan _2 15:04 "
                    +:+ glyph 0xe5ff +:+ "D" +:+ nl) ].
Proof. reflexivity. Qed.

(** * Further properties *)

(** ** More on the listing *)

(** *** What reaches which stream *)

Lemma printNames_stdout (colWidth cols n i : Z) (names : list string) (k : nat)
    (out : Output) (k' : nat) :
  printNames colWidth cols n i names k = Some (tt, out, k') ->
  Forall (fun line => line.1 = Stdout) out.
Proof.
  revert i out k'. induction names as [|name names IH]; intros i out k'; simpl.
  - intros [= <- _]. constructor.
  - unfold mbind, M_bind, goRem, write, mret, M_ret, panic.
    destruct (cols =? 0); [done|].
    destruct ((Z.rem (i + 1) cols =? 0) || (i =? n - 1)); simpl;
      (destruct (printNames colWidth cols n (i + 1) names k) as [[[[] rest] k1]|] eqn:Hrest;
       [|done]);
      apply IH in Hrest; intros Heq; simplify_eq; repeat (constructor; [done|]); done.
Qed.

Lemma forEach_printDetailedEntry_stdout (w : World) (entries : list DirEntry)
    (k : nat) (out : Output) (k' : nat) :
  forEach entries (printDetailedEntry w) k = Some (tt, out, k') ->
  Forall (fun line => line.1 = Stdout) out.
Proof.
  revert k out k'. induction entries as [|entry entries IH]; intros k out k'; simpl.
  - intros [= <- _]. constructor.
  - unfold mbind, M_bind.
    destruct (printDetailedEntry_total w entry k) as (text & k1 & ->).
    destruct (forEach entries (printDetailedEntry w) k1) as [[[[] rest] k2]|] eqn:Hrest;
      [|done].
    apply IH in Hrest. intros Heq. simplify_eq. by constructor.
Qed.

(** Once the directory is read, nothing goes to standard error, whatever
    fails afterwards: every write of either format is on standard output. *)
Theorem readable_directory_writes_stdout_only
    (w : World) (longFormat : bool) (args : list string) (entries : list DirEntry)
    (n : nat) :
  ReadDir w (targetDir args) = Ok entries ->
  exists out n',
    Run w longFormat args n = Some (tt, out, n')
    /\ Forall (fun line => line.1 = Stdout) out
    /\ textOn Stderr out = EmptyString.
Proof.
  intros Hdir.
  assert (forall out, Forall (fun line : Write => line.1 = Stdout) out ->
                      textOn Stderr out = EmptyString) as Hquiet.
  { induction 1 as [|[s t] out Hs _ IH]; [done|]. simpl in *. by subst s. }
  destruct longFormat.
  - destruct (Run_long w args entries n Hdir) as (lines & n' & Hrun & Hloop).
    apply forEach_printDetailedEntry_stdout in Hloop.
    eexists _, _. split; [exact Hrun|].
    assert (Forall (fun line : Write => line.1 = Stdout)
              ((Stdout, totalLine (Z.quot (wrap64 (sumBlocks entries)) 2)) :: lines))
      by by constructor.
    split; [done|by apply Hquiet].
  - rewrite (Run_compact w args entries n Hdir), printMultiColumn_spec.
    destruct (printNames_total (longest (getFileNameWithIcon <$> GoSort.Slice lessName entries) + 2)
                (Z.max 1 (layoutWidth w `div`
                   (longest (getFileNameWithIcon <$> GoSort.Slice lessName entries) + 2)))
                (Z.of_nat (length (getFileNameWithIcon <$> GoSort.Slice lessName entries))) 0
                (getFileNameWithIcon <$> GoSort.Slice lessName entries) n ltac:(lia))
      as [out Hout].
    exists out, n. split; [exact Hout|].
    apply printNames_stdout in Hout. split; [done|by apply Hquiet].
Qed.

Lemma readable_directory_writes_stdout_only_witness :
  exists out n',
    Run (Sample.world [Sample.gone "draft.txt"; Sample.orphan] (Ok 80) 0) true [] 0%nat
    = Some (tt, out, n')
    /\ textOn Stderr out = EmptyString.
Proof.
  destruct (readable_directory_writes_stdout_only
              (Sample.world [Sample.gone "draft.txt"; Sample.orphan] (Ok 80) 0)
              true [] [Sample.gone "draft.txt"; Sample.orphan] 0%nat eq_refl)
    as (out & n' & Hrun & _ & Hquiet).
  exists out, n'. split; [exact Hrun|exact Hquiet].
Defined.

(** *** The order of the listing *)

Lemma code_inj (x y : ascii) : code x = code y -> x = y.
Proof.
  unfold code. intros H. apply N2Z.inj in H.
  rewrite <- (ascii_N_embedding x), <- (ascii_N_embedding y). by rewrite H.
Qed.

(** Two strings neither of which is smaller than the other are equal. *)
Lemma strLess_total (a b : string) :
  strLess a b = false -> strLess b a = false -> a = b.
Proof.
  revert b. induction a as [|x a IH]; intros [|y b]; simpl; try done.
  destruct (Z.ltb_spec (code x) (code y)); [done|].
  destruct (Z.ltb_spec (code y) (code x)); [done|].
  intros Hab Hba. f_equal; [apply code_inj; lia|by apply IH].
Qed.

Lemma NoDup_fmap_elem_inj {A B : Type} (f : A -> B) (l : list A) (x y : A) :
  NoDup (f <$> l) -> x ∈ l -> y ∈ l -> f x = f y -> x = y.
Proof.
  intros Hnodup Hx Hy Hxy.
  apply list_elem_of_lookup in Hx as [i Hi]. apply list_elem_of_lookup in Hy as [j Hj].
  assert (i = j) as ->; [|congruence].
  apply (NoDup_lookup (f <$> l) i j (f x)); [done|..];
    rewrite list_lookup_fmap; [by rewrite Hi|by rewrite Hj, Hxy].
Qed.

Section SortByKey.
Context {A : Type} (key : A -> string).

(** Sorting by the bytes of a key that no two elements share has one
    outcome, which every correct sort reaches: the ascending arrangement of
    the elements is unique. *)
Lemma Slice_by_key_unique (data sorted : list A) :
  NoDup (key <$> data) ->
  Permutation data sorted ->
  GoSort.ascending (fun a b => strLess (key a) (key b)) sorted ->
  sorted = GoSort.Slice (fun a b => strLess (key a) (key b)) data.
Proof.
  intros Hnodup Hperm Hsorted.
  apply (StronglySorted_unique_strong
           (fun a b => strLess (key b) (key a) = false)); [|done|..].
  - intros x1 x2 Hx1 Hx2 H12 H21.
    apply (NoDup_fmap_elem_inj key data); [done|by rewrite Hperm|..].
    + rewrite (Slice_perm (fun a b => strLess (key a) (key b)) data). done.
    + by apply strLess_total.
  - apply (Slice_ascending (fun a b => strLess (key a) (key b))).
    + intros a b. apply strLess_asym.
    + intros a b c. apply strLess_negtrans.
  - rewrite <- Hperm. apply Slice_perm.
Qed.
End SortByKey.

(** When no two names of the directory are equal once lower-cased, the order
    of the listing is determined: whatever arrangement of the entries is in
    ascending order of the comparison is the one [Run] lists, so the listing
    depends neither on the order in which the directory was read nor on how
    [sort.Slice] goes about sorting. *)
Theorem listing_order_is_determined (entries : list DirEntry) :
  NoDup ((fun entry => ToLower (Name entry)) <$> entries) ->
  (forall sorted,
     Permutation entries sorted -> GoSort.ascending lessName sorted ->
     sorted = GoSort.Slice lessName entries)
  /\ (forall other,
        Permutation entries other ->
        GoSort.Slice lessName other = GoSort.Slice lessName entries)
  /\ GoSort.Slice lessName (GoSort.Slice lessName entries)
     = GoSort.Slice lessName entries.
Proof.
  intros Hnodup.
  assert (forall sorted,
            Permutation entries sorted -> GoSort.ascending lessName sorted ->
            sorted = GoSort.Slice lessName entries) as Hunique
    by (intros sorted; by apply (Slice_by_key_unique (fun entry => ToLower (Name entry)))).
  split; [exact Hunique|]. split.
  - intros other Hperm. apply Hunique.
    + rewrite Hperm. apply Slice_perm.
    + apply (Slice_ascending lessName lessName_asym lessName_negtrans).
  - apply Hunique.
    + etrans; apply (Slice_perm lessName).
    + apply (Slice_ascending lessName lessName_asym lessName_negtrans).
Qed.

Lemma listing_order_is_determined_witness :
  GoSort.Slice lessName (reverse Sample.scenario) = GoSort.Slice lessName Sample.scenario.
Proof.
  apply (proj1 (proj2 (listing_order_is_determined Sample.scenario
                         ltac:(apply (bool_decide_unpack _); vm_compute; exact I)))).
  symmetry. apply reverse_Permutation.
Defined.

(** The earlier revision compares the names as they are, so its listing is
    determined as soon as no two entries share a name, which is so in every
    directory. *)
Theorem Legacy_listing_order_is_determined (entries sorted : list DirEntry) :
  NoDup (Name <$> entries) ->
  Permutation entries sorted ->
  GoSort.ascending Legacy.lessName sorted ->
  sorted = GoSort.Slice Legacy.lessName entries.
Proof. apply (Slice_by_key_unique Name). Qed.

Lemma Legacy_listing_order_is_determined_witness :
  [Sample.gone "README"; Sample.gone "readme"]
  = GoSort.Slice Legacy.lessName [Sample.gone "readme"; Sample.gone "README"].
Proof.
  apply Legacy_listing_order_is_determined.
  - apply (bool_decide_unpack _). vm_compute. exact I.
  - apply perm_swap.
  - repeat constructor.
Defined.

(** *** Counting runes *)

(** An encoding never reaches past the end of the string. *)
Lemma runeSize_le (c : Z) (rest : list Z) :
  (1 <= runeSize (c :: rest) <= S (length rest))%nat.
Proof.
  unfold runeSize.
  repeat match goal with
         | |- context [if ?b then _ else _] => destruct b eqn:?
         | |- context [match ?l with [] => _ | _ :: _ => _ end] => destruct l
         end; simpl in *; try lia.
Qed.

(** Bytes that follow the string do not change the size of an encoding in
    it when the first of them is ASCII: an encoding that the end of the
    string cut short stays cut short. *)
Lemma runeSize_app (c : Z) (rest : list Z) (t : Z) (tail : list Z) :
  t < 0x80 ->
  runeSize ((c :: rest) ++ t :: tail) = runeSize (c :: rest).
Proof.
  intros Ht. cbn [app]. unfold runeSize.
  destruct ((c <? 0xC2) || (0xF4 <? c)) eqn:Hc; [done|].
  destruct (Z.ltb_spec c 0xE0); [|destruct (Z.ltb_spec c 0xF0)];
    destruct (Z.eqb_spec c 0xE0); try lia;
    destruct (Z.eqb_spec c 0xF0); try lia;
    destruct (Z.eqb_spec c 0xED); try lia;
    destruct (Z.eqb_spec c 0xF4); try lia;
    destruct rest as [|c1 [|c2 [|c3 rest]]]; simpl;
    repeat match goal with
           | |- context [?a <? ?b] => destruct (Z.ltb_spec a b); simpl
           end; try reflexivity; try lia.
  all: by destruct (_ <? _)%nat.
Qed.

Lemma runeCountFrom_app (bs : list Z) (t : Z) (tail : list Z) (skip : nat) :
  t < 0x80 -> (skip <= length bs)%nat ->
  runeCountFrom skip (bs ++ t :: tail)
  = runeCountFrom skip bs + runeCountFrom 0 (t :: tail).
Proof.
  intros Ht. revert skip.
  induction bs as [|c rest IH]; intros skip Hskip.
  - simpl in Hskip. by replace skip with 0%nat by lia.
  - destruct skip as [|skip].
    + change (runeCountFrom 0 ((c :: rest) ++ t :: tail))
        with (1 + runeCountFrom (pred (runeSize ((c :: rest) ++ t :: tail)))
                    (rest ++ t :: tail)).
      rewrite runeSize_app by done.
      pose proof (runeSize_le c rest).
      rewrite IH by lia. simpl. lia.
    + simpl in *. apply IH. lia.
Qed.

Lemma runeCountFrom_spaces (k : nat) (tail : list Z) :
  runeCountFrom 0 (replicate k 32 ++ tail) = Z.of_nat k + runeCountFrom 0 tail.
Proof. induction k as [|k IH]; [done|]. cbn -[Z.of_nat]. rewrite IH. lia. Qed.

Lemma runeCountFrom_le (bs : list Z) (skip : nat) :
  0 <= runeCountFrom skip bs <= Z.of_nat (length bs).
Proof.
  revert skip. induction bs as [|c rest IH]; intros skip; [simpl; lia|].
  destruct skip as [|skip]; cbn -[runeSize Z.of_nat].
  - specialize (IH (pred (runeSize (c :: rest)))). lia.
  - specialize (IH skip). lia.
Qed.

(** A string has at most as many runes as bytes. *)
Lemma RuneCountInString_le (s : string) : 0 <= RuneCountInString s <= len s.
Proof.
  unfold RuneCountInString, len.
  pose proof (runeCountFrom_le (code <$> list_ascii_of_string s) 0) as H.
  rewrite length_fmap in H.
  replace (length (list_ascii_of_string s)) with (String.length s) in H; [done|].
  clear H. induction s as [|c s IH]; simpl; [done|by rewrite IH].
Qed.

Lemma codes_spaces (k : Z) :
  code <$> list_ascii_of_string (spaces k) = replicate (Z.to_nat k) 32.
Proof.
  unfold spaces. rewrite list_ascii_of_string_of_list_ascii.
  by rewrite fmap_replicate.
Qed.

(** The runes of a string followed by padding and more text: the padding
    ends whatever encoding the string leaves open. *)
Lemma RuneCountInString_padded (s : string) (k : Z) (t : string) :
  0 < k ->
  RuneCountInString (s +:+ spaces k +:+ t)
  = RuneCountInString s + k + RuneCountInString t.
Proof.
  intros Hk. unfold RuneCountInString.
  rewrite !list_ascii_of_string_app, !fmap_app, codes_spaces.
  destruct (Z.to_nat k) as [|j] eqn:Hj; [lia|].
  change (replicate (S j) 32) with (32 :: replicate j 32).
  cbn [app]. rewrite runeCountFrom_app by (simpl; lia).
  change (32 :: replicate j 32 ++ ?x) with (replicate (S j) 32 ++ x).
  rewrite runeCountFrom_spaces. lia.
Qed.

(** *** The rows of the compact format *)

Lemma mod_succ_inside (i cols : Z) :
  0 <= i -> 0 < cols -> i mod cols + 1 < cols -> (i + 1) mod cols = i mod cols + 1.
Proof.
  intros Hi Hcols Hin. pose proof (Z.mod_pos_bound i cols ltac:(lia)).
  symmetry. apply (Z.mod_unique_pos _ _ (i / cols)); [lia|].
  pose proof (Z.div_mod i cols ltac:(lia)). lia.
Qed.

Lemma mod_succ_wrap (i cols : Z) :
  0 <= i -> 0 < cols -> i mod cols + 1 = cols -> (i + 1) mod cols = 0.
Proof.
  intros Hi Hcols Hin.
  symmetry. apply (Z.mod_unique_pos _ _ (i / cols + 1)); [lia|].
  pose proof (Z.div_mod i cols ltac:(lia)). lia.
Qed.

(** One row: the names up to the next multiple of [cols], or up to the
    last name, are printed cell after cell, and the line feed follows the
    last of them alone. *)
Lemma printNames_row (colWidth cols n i : Z) (row rest : list string) (k : nat) :
  0 < cols -> 0 <= i -> row <> [] ->
  i mod cols + Z.of_nat (length row) <= cols ->
  i mod cols + Z.of_nat (length row) = cols \/ rest = [] ->
  n = i + Z.of_nat (length row) + Z.of_nat (length rest) ->
  printNames colWidth cols n i (row ++ rest) k
  = match printNames colWidth cols n (i + Z.of_nat (length row)) rest k with
    | Some (u, out, k') => Some (u, rowWrites colWidth row ++ out, k')
    | None => None
    end.
Proof.
  intros Hcols. revert i.
  induction row as [|name row IH]; intros i Hi Hrow Hfit Hend Hn; [done|].
  simpl. unfold mbind, M_bind, goRem, write, mret, M_ret.
  destruct (Z.eqb_spec cols 0) as [|_]; [lia|].
  rewrite Z.rem_mod_nonneg by lia.
  destruct row as [|name' row].
  - clear IH. change (Z.of_nat (length [name])) with 1 in *.
    assert ((((i + 1) mod cols =? 0) || (i =? n - 1)) = true) as ->.
    { apply orb_true_iff. destruct Hend as [Hend| ->].
      - left. apply Z.eqb_eq, mod_succ_wrap; lia.
      - right. apply Z.eqb_eq. simpl in Hn. lia. }
    simpl. change (Z.of_nat 1) with 1.
    by destruct (printNames colWidth cols n (i + 1) rest k) as [[[[] out] k']|].
  - assert (Z.of_nat (length (name :: name' :: row))
            = 1 + Z.of_nat (length (name' :: row))) as Hlen
      by (change (length (name :: name' :: row)) with (S (length (name' :: row))); lia).
    assert (0 < Z.of_nat (length (name' :: row))) by (simpl; lia).
    rewrite Hlen in *.
    assert ((i + 1) mod cols = i mod cols + 1) as Hnext
      by (apply mod_succ_inside; lia).
    assert ((((i + 1) mod cols =? 0) || (i =? n - 1)) = false) as ->.
    { pose proof (Z.mod_pos_bound i cols Hcols).
      apply orb_false_iff. split; apply Z.eqb_neq; lia. }
    specialize (IH (i + 1) ltac:(lia) ltac:(done)).
    rewrite Hnext in IH. cbn [app] in IH |- *.
    rewrite IH; [|lia|destruct Hend; [left; lia|by right]|lia].
    replace (i + 1 + Z.of_nat (length (name' :: row)))
      with (i + (1 + Z.of_nat (length (name' :: row)))) by lia.
    replace (i + Z.of_nat (S (length (name' :: row))))
      with (i + (1 + Z.of_nat (length (name' :: row)))) by lia.
    clear IH.
    by destruct (printNames colWidth cols n _ rest k) as [[[[] out] k']|].
Qed.

(** The whole loop, from the start of a row. *)
Lemma printNames_rows (colWidth cols n : Z) (k : nat) (fuel : nat) :
  0 < cols ->
  forall (i : Z) (names : list string),
    (length names <= fuel)%nat -> 0 <= i -> i mod cols = 0 ->
    n = i + Z.of_nat (length names) ->
    printNames colWidth cols n i names k
    = Some (tt, concat (rowWrites colWidth <$> rowsOf fuel (Z.to_nat cols) names), k).
Proof.
  intros Hcols. induction fuel as [|fuel IH]; intros i names Hfuel Hi Hmod Hn.
  - destruct names; [done|simpl in Hfuel; lia].
  - destruct names as [|name names]; [done|].
    set (all := name :: names) in *.
    assert (all <> []) as Hall by done.
    assert (rowsOf (S fuel) (Z.to_nat cols) all
            = take (Z.to_nat cols) all :: rowsOf fuel (Z.to_nat cols) (drop (Z.to_nat cols) all))
      as -> by done.
    rewrite <- (take_drop (Z.to_nat cols) all) at 1.
    pose proof (length_take all (Z.to_nat cols)) as Htake.
    pose proof (length_drop all (Z.to_nat cols)) as Hdrop.
    assert (0 < length all)%nat by (unfold all; simpl; lia).
    rewrite printNames_row; [|done|done| |lia| |].
    + destruct (decide (drop (Z.to_nat cols) all = [])) as [Hnil|Hmore].
      * rewrite Hnil. destruct fuel; simpl; by rewrite app_nil_r.
      * assert (Z.to_nat cols < length all)%nat.
        { destruct (decide (Z.to_nat cols < length all)%nat); [done|].
          by rewrite drop_ge in Hmore by lia. }
        rewrite IH; [done| | | |].
        -- rewrite Hdrop. unfold all in *. simpl in *. lia.
        -- lia.
        -- rewrite Htake. replace (Z.of_nat (Z.to_nat cols `min` length all)) with cols by lia.
           rewrite <- (Z.mul_1_l cols) at 1. by rewrite Z.mod_add by lia.
        -- lia.
    + intros Hnil. apply (f_equal length) in Hnil. rewrite Htake in Hnil. simpl in Hnil. lia.
    + destruct (decide (Z.to_nat cols <= length all)%nat).
      * left. lia.
      * right. apply drop_ge. lia.
    + rewrite <- (take_drop (Z.to_nat cols) all) in Hn at 1.
      rewrite length_app in Hn. lia.
Qed.

(** *** Full rows and the last row *)

Lemma rowsOf_spec (cols fuel : nat) (names : list string) :
  (0 < cols)%nat -> (length names <= fuel)%nat ->
  concat (rowsOf fuel cols names) = names
  /\ Forall (fun row => (1 <= length row <= cols)%nat) (rowsOf fuel cols names)
  /\ (forall i row,
        rowsOf fuel cols names !! i = Some row ->
        (S i < length (rowsOf fuel cols names))%nat -> length row = cols)
  /\ (length (rowsOf fuel cols names) * cols < length names + cols)%nat
  /\ (length names <= length (rowsOf fuel cols names) * cols)%nat.
Proof.
  intros Hcols. revert names.
  induction fuel as [|fuel IH]; intros names Hfuel.
  - destruct names; [|simpl in Hfuel; lia]. simpl. repeat split; try done; lia.
  - destruct names as [|name names]; [simpl; repeat split; try done; lia|].
    set (all := name :: names) in *.
    assert (rowsOf (S fuel) cols all
            = take cols all :: rowsOf fuel cols (drop cols all)) as -> by done.
    assert (0 < length all)%nat by (unfold all; simpl; lia).
    clearbody all.
    pose proof (length_take all cols) as Htake.
    pose proof (length_drop all cols) as Hdrop.
    destruct (IH (drop cols all)) as (Hcat & Hlen & Hfull & Hup & Hlow); [lia|].
    split; [|split; [|split; [|split]]].
    + simpl. rewrite Hcat. apply take_drop.
    + constructor; [lia|done].
    + intros [|i] row Hrow Hi; simpl in Hrow, Hi.
      * injection Hrow as <-. rewrite Htake.
        destruct (decide (cols < length all)%nat); [lia|].
        rewrite drop_ge in Hi by lia. destruct fuel; simpl in Hi; lia.
      * apply (Hfull i row Hrow). lia.
    + simpl. destruct (decide (cols < length all)%nat); [lia|].
      rewrite drop_ge by lia. destruct fuel; simpl; lia.
    + simpl. lia.
Qed.

(** In the compact format the names of the sorted entries are printed in
    rows: every row but the last holds as many names as there are columns,
    the last holds the rest and at least one, each name is printed as a
    cell padded to the column width, and one line feed ends each row. The
    listing has as many lines as the names need rows. *)
Theorem compact_format_prints_rows
    (w : World) (args : list string) (entries : list DirEntry) (n : nat) :
  ReadDir w (targetDir args) = Ok entries ->
  let names := getFileNameWithIcon <$> GoSort.Slice lessName entries in
  let colWidth := longest names + 2 in
  let cols := Z.max 1 (layoutWidth w `div` colWidth) in
  let rows := gridRows cols names in
  Run w false args n = Some (tt, concat (rowWrites colWidth <$> rows), n)
  /\ concat rows = names
  /\ Forall (fun row => 1 <= Z.of_nat (length row) <= cols) rows
  /\ (forall i row,
        rows !! i = Some row -> (S i < length rows)%nat ->
        Z.of_nat (length row) = cols)
  /\ Z.of_nat (length rows) = (Z.of_nat (length entries) + cols - 1) `div` cols.
Proof.
  intros Hdir names colWidth cols rows.
  assert (0 < cols) as Hcols by (unfold cols; lia).
  destruct (rowsOf_spec (Z.to_nat cols) (length names) names ltac:(lia) ltac:(lia))
    as (Hcat & Hlen & Hfull & Hup & Hlow).
  fold (gridRows cols names) in Hcat, Hlen, Hfull, Hup, Hlow.
  fold rows in Hcat, Hlen, Hfull, Hup, Hlow.
  split; [|split; [done|split; [|split]]].
  - rewrite (Run_compact w args entries n Hdir), printMultiColumn_spec.
    fold names. fold colWidth. fold cols.
    apply printNames_rows; [done|lia|lia|by rewrite Z.mod_0_l by lia|lia].
  - eapply Forall_impl; [exact Hlen|]. intros row Hrow. simpl in Hrow. lia.
  - intros i row Hrow Hi. rewrite (Hfull i row Hrow Hi). lia.
  - assert (length names = length entries) as Hsame.
    { unfold names. rewrite length_fmap.
      symmetry. apply Permutation_length, Slice_perm. }
    rewrite <- Hsame. clearbody rows names cols.
    assert (Z.of_nat (length rows) * cols < Z.of_nat (length names) + cols) by nia.
    assert (Z.of_nat (length names) <= Z.of_nat (length rows) * cols) by nia.
    apply (Z.div_unique_pos _ _ _
             (Z.of_nat (length names) + cols - 1 - Z.of_nat (length rows) * cols)); lia.
Qed.

Lemma compact_format_prints_rows_witness :
  Run (Sample.world Sample.scenario (Ok 30) 0) false [] 0%nat
  = Some (tt,
          rowWrites 11 [glyph 0xf0354 +:+ "A.md"; glyph 0xf15c +:+ "b.TXT"]
          ++ rowWrites 11 [glyph 0xea7b +:+ "c"; glyph 0xe5ff +:+ "D"],
          0%nat).
Proof.
  apply (proj1 (compact_format_prints_rows
                  (Sample.world Sample.scenario (Ok 30) 0) [] Sample.scenario 0%nat
                  eq_refl)).
Defined.

(** *** The width of the cells *)

Lemma RuneCountInString_pad (s : string) (k : Z) :
  0 <= k -> RuneCountInString (s +:+ spaces k) = RuneCountInString s + k.
Proof.
  intros Hk. unfold RuneCountInString.
  rewrite list_ascii_of_string_app, fmap_app, codes_spaces.
  destruct (Z.to_nat k) as [|j] eqn:Hj.
  - rewrite app_nil_r. lia.
  - change (replicate (S j) 32) with (32 :: replicate j 32).
    rewrite runeCountFrom_app by (simpl; lia).
    pose proof (runeCountFrom_spaces (S j) []) as Hsp.
    rewrite app_nil_r in Hsp. change (replicate (S j) 32) with (32 :: replicate j 32) in Hsp.
    rewrite Hsp. simpl runeCountFrom. lia.
Qed.

Lemma longest_ge (names : list string) (name : string) :
  name ∈ names -> len name <= longest names.
Proof.
  induction 1 as [name names|name other names _ IH]; unfold longest in *; simpl; lia.
Qed.

(** A cell of a column that is two wider than the name in bytes, and that
    [fmt] accepts as a width: the name, then two spaces or more, which
    bring it to the width of the column in runes. *)
Lemma padRight_cell (colWidth : Z) (name : string) :
  len name + 2 <= colWidth -> colWidth <= 1000000 ->
  padRight colWidth name = name +:+ spaces (colWidth - RuneCountInString name)
  /\ 2 <= colWidth - RuneCountInString name
  /\ RuneCountInString (padRight colWidth name) = colWidth
  /\ forall text,
       RuneCountInString (padRight colWidth name +:+ text)
       = colWidth + RuneCountInString text.
Proof.
  intros Hlen Hmax. pose proof (RuneCountInString_le name) as Hrunes.
  unfold padRight. destruct (Z.ltb_spec 1000000 colWidth); [lia|].
  split; [done|]. split; [lia|]. split.
  - rewrite RuneCountInString_pad by lia. lia.
  - intros text.
    assert ((name +:+ spaces (colWidth - RuneCountInString name)) +:+ text
            = name +:+ spaces (colWidth - RuneCountInString name) +:+ text) as ->.
    { apply list_ascii_of_string_inj. rewrite !list_ascii_of_string_app.
      by rewrite app_assoc. }
    rewrite RuneCountInString_padded by lia. lia.
Qed.

Lemma textOn_rowWrites (colWidth : Z) (row : list string) :
  textOn Stdout (rowWrites colWidth row)
  = foldr (fun name text => padRight colWidth name +:+ text) nl row.
Proof. induction row as [|name row IH]; simpl; [done|]. by rewrite <- IH. Qed.

Lemma elem_of_concat {A : Type} (rows : list (list A)) (row : list A) (x : A) :
  row ∈ rows -> x ∈ row -> x ∈ concat rows.
Proof.
  intros Hrow Hx. induction Hrow as [row rows|row other rows _ IH]; simpl;
    apply elem_of_app; [by left|right; by apply IH].
Qed.

Lemma elem_of_gridRows (cols : Z) (names row : list string) (name : string) :
  0 < cols -> row ∈ gridRows cols names -> name ∈ row -> name ∈ names.
Proof.
  intros Hcols Hrow Hname.
  destruct (rowsOf_spec (Z.to_nat cols) (length names) names ltac:(lia) ltac:(lia))
    as (Hcat & _).
  rewrite <- Hcat. by apply (elem_of_concat _ row).
Qed.

(** The columns line up and the rows fit the terminal: as long as [fmt]
    accepts the column width, every cell of the compact format is its name
    followed by two spaces or more and is as many runes wide as the column,
    so a row of [k] names is [k] columns wide; and unless the longest name
    leaves no room for one column, no row is wider than the terminal. *)
Theorem compact_rows_fit_the_terminal
    (w : World) (args : list string) (entries : list DirEntry) (n : nat) :
  ReadDir w (targetDir args) = Ok entries ->
  let names := getFileNameWithIcon <$> GoSort.Slice lessName entries in
  let colWidth := longest names + 2 in
  let cols := Z.max 1 (layoutWidth w `div` colWidth) in
  colWidth <= 1000000 ->
  exists rows,
    Run w false args n = Some (tt, concat (rowWrites colWidth <$> rows), n)
    /\ Forall
         (fun row =>
            Forall (fun name =>
                      exists k,
                        2 <= k
                        /\ padRight colWidth name = name +:+ spaces k
                        /\ RuneCountInString (padRight colWidth name) = colWidth) row
            /\ RuneCountInString (textOn Stdout (rowWrites colWidth row))
               = Z.of_nat (length row) * colWidth + 1
            /\ (colWidth <= layoutWidth w ->
                Z.of_nat (length row) * colWidth <= layoutWidth w))
         rows.
Proof.
  intros Hdir names colWidth cols Hmax.
  assert (0 < cols) as Hcols by (unfold cols; lia).
  pose proof (longest_nonneg names) as Hlongest.
  exists (gridRows cols names). split.
  { rewrite (Run_compact w args entries n Hdir), printMultiColumn_spec.
    fold names. fold colWidth. fold cols.
    apply printNames_rows; [done|lia|lia|by rewrite Z.mod_0_l by lia|lia]. }
  destruct (rowsOf_spec (Z.to_nat cols) (length names) names ltac:(lia) ltac:(lia))
    as (_ & Hlen & _).
  fold (gridRows cols names) in Hlen.
  apply Forall_forall. intros row Hrow.
  rewrite Forall_forall in Hlen. specialize (Hlen row Hrow).
  assert (forall name, name ∈ row -> len name + 2 <= colWidth) as Hcell.
  { intros name Hname. pose proof (longest_ge names name
      (elem_of_gridRows cols names row name Hcols Hrow Hname)). unfold colWidth. lia. }
  split; [|split].
  - apply Forall_forall. intros name Hname.
    destruct (padRight_cell colWidth name (Hcell name Hname) Hmax) as (Hpad & Hk & Hrunes & _).
    by exists (colWidth - RuneCountInString name).
  - rewrite textOn_rowWrites. clear Hlen Hrow.
    induction row as [|name row IH]; [reflexivity|].
    cbn [foldr].
    destruct (padRight_cell colWidth name (Hcell name ltac:(left)) Hmax) as (_ & _ & _ & ->).
    rewrite IH by (intros other Hother; apply Hcell; by right).
    rewrite length_cons. lia.
  - intros Hroom.
    assert (cols * colWidth <= layoutWidth w).
    { unfold cols. rewrite Z.max_r by (apply Z.div_le_lower_bound; lia).
      rewrite Z.mul_comm. apply Z.mul_div_le. lia. }
    nia.
Qed.

Lemma compact_rows_fit_the_terminal_witness :
  exists rows,
    Run (Sample.world Sample.scenario (Ok 30) 0) false [] 0%nat
    = Some (tt, concat (rowWrites 11 <$> rows), 0%nat)
    /\ Forall (fun row => Z.of_nat (length row) * 11 <= 30) rows.
Proof.
  destruct (compact_rows_fit_the_terminal
              (Sample.world Sample.scenario (Ok 30) 0) [] Sample.scenario 0%nat
              eq_refl ltac:(vm_compute; discriminate)) as (rows & Hrun & Hrows).
  exists rows. split; [exact Hrun|].
  eapply Forall_impl; [exact Hrows|].
  intros row (_ & _ & Hfit). apply Hfit. vm_compute. discriminate.
Defined.

(** *** What the compact format looks at *)

Section SortRelated.
Context {A : Type} (less : A -> A -> bool) (R : A -> A -> Prop).
Hypothesis less_R : forall a b c d, R a b -> R c d -> less a c = less b d.

(** Sorting two slices whose elements are related place by place, by a
    comparison that does not tell related elements apart, moves them
    alike. *)
Lemma sink_Forall2 (x y : A) (l1 l2 : list A) :
  R x y -> Forall2 R l1 l2 -> Forall2 R (GoSort.sink less x l1) (GoSort.sink less y l2).
Proof.
  intros Hxy Hl. induction Hl as [|a b l1 l2 Hab Hl IH]; simpl.
  - by repeat constructor.
  - rewrite (less_R x y a b Hxy Hab).
    destruct (less y b); repeat constructor; done.
Qed.

Lemma Slice_Forall2 (l1 l2 : list A) :
  Forall2 R l1 l2 -> Forall2 R (GoSort.Slice less l1) (GoSort.Slice less l2).
Proof.
  intros Hl. unfold GoSort.Slice, GoSort.insertionSort. apply Forall2_reverse.
  assert (Forall2 R [] []) as Hacc by constructor. revert Hacc.
  generalize (@nil A) at 1 3. generalize (@nil A).
  induction Hl as [|a b l1 l2 Hab Hl IH]; intros acc2 acc1 Hacc; simpl; [done|].
  apply IH. by apply sink_Forall2.
Qed.
End SortRelated.

(** The compact format looks at nothing but the names, the directory flags
    and the width of the terminal: two directories whose entries have, place
    by place, the same name and the same flag are listed alike on terminals
    of one width, whatever the metadata of the entries, the accounts and the
    clock, which it does not read. *)
Theorem compact_listing_ignores_metadata
    (w1 w2 : World) (args : list string) (l1 l2 : list DirEntry) (n1 n2 : nat) :
  ReadDir w1 (targetDir args) = Ok l1 ->
  ReadDir w2 (targetDir args) = Ok l2 ->
  Forall2 (fun a b => Name a = Name b /\ IsDir a = IsDir b) l1 l2 ->
  GetSize w1 = GetSize w2 ->
  exists out,
    Run w1 false args n1 = Some (tt, out, n1)
    /\ Run w2 false args n2 = Some (tt, out, n2).
Proof.
  intros Hdir1 Hdir2 Hsame Hsize.
  rewrite (Run_compact w1 args l1 n1 Hdir1), (Run_compact w2 args l2 n2 Hdir2).
  rewrite !printMultiColumn_spec.
  assert (getFileNameWithIcon <$> GoSort.Slice lessName l1
          = getFileNameWithIcon <$> GoSort.Slice lessName l2) as ->.
  { apply list_eq_Forall2, Forall2_fmap.
    eapply Forall2_impl;
      [apply (Slice_Forall2 lessName
                (fun a b => Name a = Name b /\ IsDir a = IsDir b)); [|exact Hsame]|].
    - intros a b c d [Hab _] [Hcd _]. unfold lessName. by rewrite Hab, Hcd.
    - intros a b [Hname Hflag]. unfold getFileNameWithIcon. by rewrite Hname, Hflag. }
  assert (layoutWidth w1 = layoutWidth w2) as -> by (unfold layoutWidth; by rewrite Hsize).
  set (names := getFileNameWithIcon <$> GoSort.Slice lessName l2).
  pose proof (longest_nonneg names). pose proof (layoutWidth_floor w2).
  set (cols := Z.max 1 (layoutWidth w2 `div` (longest names + 2))).
  exists (concat (rowWrites (longest names + 2) <$> gridRows cols names)).
  split; apply printNames_rows; try lia; by rewrite Z.mod_0_l by lia.
Qed.

Lemma compact_listing_ignores_metadata_witness :
  exists out,
    Run (Sample.world [Sample.orphan] (Ok 80) 0) false [] 0%nat = Some (tt, out, 0%nat)
    /\ Run (Sample.world [Sample.gone "notes"] (Ok 80) 5) false [] 7%nat
       = Some (tt, out, 7%nat).
Proof.
  apply (compact_listing_ignores_metadata
           (Sample.world [Sample.orphan] (Ok 80) 0)
           (Sample.world [Sample.gone "notes"] (Ok 80) 5)
           [] [Sample.orphan] [Sample.gone "notes"] 0%nat 7%nat eq_refl eq_refl).
  - by repeat constructor.
  - reflexivity.
Defined.

(** *** The readings of the clock *)

Lemma okBlocks_cons (entry : DirEntry) (entries : list DirEntry) :
  okBlocks (entry :: entries)
  = match Info entry with
    | Ok info => Blocks (Sys info) :: okBlocks entries
    | Err _ => okBlocks entries
    end.
Proof. unfold okBlocks. simpl. by destruct (Info entry). Qed.

Lemma forEach_printDetailedEntry_clock (w : World) (entries : list DirEntry) (n : nat) :
  exists lines,
    forEach entries (printDetailedEntry w) n
    = Some (tt, lines, (n + length (okBlocks entries))%nat)
    /\ length lines = length entries
    /\ forall i entry info,
         entries !! i = Some entry -> Info entry = Ok info ->
         lines !! i
         = Some (Stdout,
                 detailLine (permString (Mode info)) (Nlink (Sys info))
                   (ownerName w (Uid (Sys info))) (groupName w (Gid (Sys info)))
                   (Size info)
                   (Format w (ModTime info)
                      (timeFormat
                         (Sub (Clock w (n + length (okBlocks (take i entries)))%nat)
                            (ModTime info))))
                   (getFileNameWithIcon entry)).
Proof.
  revert n. induction entries as [|entry entries IH]; intros n.
  - exists []. simpl. rewrite Nat.add_0_r. repeat split; [done..|]. by intros [|i].
  - simpl forEach. unfold mbind, M_bind. rewrite okBlocks_cons.
    destruct (Info entry) as [info|err] eqn:Hinfo.
    + rewrite (printDetailedEntry_ok w entry info n Hinfo).
      destruct (IH (S n)) as (lines & -> & Hlen & Hlines).
      eexists. split; [|split].
      * cbn [length app]. do 2 f_equal. lia.
      * simpl. by rewrite Hlen.
      * intros [|i] entry' info' Hentry Hinfo'.
        -- injection Hentry as <-. rewrite Hinfo in Hinfo'. injection Hinfo' as <-.
           simpl. by rewrite Nat.add_0_r.
        -- simpl in Hentry.
           change (lines !! i = Some (Stdout,
                 detailLine (permString (Mode info')) (Nlink (Sys info'))
                   (ownerName w (Uid (Sys info'))) (groupName w (Gid (Sys info')))
                   (Size info')
                   (Format w (ModTime info')
                      (timeFormat
                         (Sub (Clock w (n + length (okBlocks (entry :: take i entries)))%nat)
                            (ModTime info'))))
                   (getFileNameWithIcon entry'))).
           rewrite (Hlines i entry' info' Hentry Hinfo').
           rewrite okBlocks_cons, Hinfo. cbn [length].
           by replace (S n + length (okBlocks (take i entries)))%nat
             with (n + S (length (okBlocks (take i entries))))%nat by lia.
    + rewrite (printDetailedEntry_err w entry err n Hinfo).
      destruct (IH n) as (lines & -> & Hlen & Hlines).
      eexists. split; [|split].
      * done.
      * simpl. by rewrite Hlen.
      * intros [|i] entry' info' Hentry Hinfo'.
        -- injection Hentry as <-. congruence.
        -- simpl in Hentry.
           change (lines !! i = Some (Stdout,
                 detailLine (permString (Mode info')) (Nlink (Sys info'))
                   (ownerName w (Uid (Sys info'))) (groupName w (Gid (Sys info')))
                   (Size info')
                   (Format w (ModTime info')
                      (timeFormat
                         (Sub (Clock w (n + length (okBlocks (entry :: take i entries)))%nat)
                            (ModTime info'))))
                   (getFileNameWithIcon entry'))).
           rewrite (Hlines i entry' info' Hentry Hinfo').
           by rewrite okBlocks_cons, Hinfo.
Qed.

(** The long format reads the clock once for each entry whose metadata it
    has, when it makes the line of that entry, and not at all for an entry
    it reports as unreadable: the age that chooses the layout of an entry's
    time is taken at the reading that follows those of the entries listed
    before it, and a run ends with as many readings made as entries have
    metadata. *)
Theorem long_format_reads_the_clock_per_entry
    (w : World) (args : list string) (entries : list DirEntry) (n : nat) :
  ReadDir w (targetDir args) = Ok entries ->
  let sorted := GoSort.Slice lessName entries in
  exists header lines,
    Run w true args n
    = Some (tt, header :: lines, (n + length (okBlocks entries))%nat)
    /\ length lines = length entries
    /\ forall i entry info,
         sorted !! i = Some entry -> Info entry = Ok info ->
         lines !! i
         = Some (Stdout,
                 detailLine (permString (Mode info)) (Nlink (Sys info))
                   (ownerName w (Uid (Sys info))) (groupName w (Gid (Sys info)))
                   (Size info)
                   (Format w (ModTime info)
                      (timeFormat
                         (Sub (Clock w (n + length (okBlocks (take i sorted)))%nat)
                            (ModTime info))))
                   (getFileNameWithIcon entry)).
Proof.
  intros Hdir sorted.
  destruct (Run_long w args entries n Hdir) as (lines & n' & Hrun & Hloop).
  destruct (forEach_printDetailedEntry_clock w sorted n) as (lines' & Hloop' & Hlen & Hlines).
  fold sorted in Hloop. rewrite Hloop in Hloop'. injection Hloop' as -> ->.
  exists (Stdout, totalLine (Z.quot (wrap64 (sumBlocks entries)) 2)), lines'.
  split; [|split; [|done]].
  - rewrite Hrun. do 3 f_equal.
    apply Permutation_length, okBlocks_perm. symmetry. apply Slice_perm.
  - rewrite Hlen. symmetry. apply Permutation_length, Slice_perm.
Qed.

Lemma long_format_reads_the_clock_per_entry_witness :
  exists header lines,
    Run (Sample.world (Sample.gone "draft.txt" :: Sample.scenario) (Ok 80) 0) true [] 0%nat
    = Some (tt, header :: lines, 4%nat)
    /\ length lines = 5%nat.
Proof.
  destruct (long_format_reads_the_clock_per_entry
              (Sample.world (Sample.gone "draft.txt" :: Sample.scenario) (Ok 80) 0)
              [] (Sample.gone "draft.txt" :: Sample.scenario) 0%nat eq_refl)
    as (header & lines & Hrun & Hlen & _).
  exists header, lines. split; [exact Hrun|exact Hlen].
Defined.

(** *** The permission column *)

Lemma rwxString_bits (m1 m2 : Z) :
  rwxString m1 = rwxString m2 ->
  forall i, 0 <= i < 9 -> Z.testbit (Perm m1) i = Z.testbit (Perm m2) i.
Proof.
  unfold rwxString. intros H. apply (f_equal list_ascii_of_string) in H.
  rewrite !list_ascii_of_string_of_list_ascii in H. simpl in H.
  assert (forall (b1 b2 : bool) (c : ascii),
            c <> "-"%char ->
            (if b1 then c else "-"%char) = (if b2 then c else "-"%char) -> b1 = b2)
    as Hbit by (intros [] [] c Hc; congruence).
  injection H as H8 H7 H6 H5 H4 H3 H2 H1 H0.
  apply Hbit in H8, H7, H6, H5, H4, H3, H2, H1, H0; try discriminate.
  intros i Hi.
  assert (i = 0 \/ i = 1 \/ i = 2 \/ i = 3 \/ i = 4 \/ i = 5 \/ i = 6 \/ i = 7 \/ i = 8)
    as Hcases by lia.
  by repeat destruct Hcases as [->|Hcases]; [..|subst i].
Qed.

Lemma Perm_bits_high (m i : Z) : 9 <= i -> Z.testbit (Perm m) i = false.
Proof.
  intros Hi. unfold Perm, ModePerm. rewrite Z.land_spec.
  change 0x1ff with (Z.ones 9). rewrite (Z.ones_spec_high 9 i) by lia.
  apply andb_false_r.
Qed.

(** The permission column is made without fail and is ten characters, and
    it shows the directory bit and the nine permission bits of the mode and
    nothing else: two modes print the same column exactly when they agree
    on these, so a set-uid, set-gid or sticky bit and the type of a link,
    device or socket never show. *)
Theorem permission_column_shows_ten_bits (m1 m2 : Z) (n : nat) :
  (sliceFrom1 (FileMode_String (Perm m1)) ≫= fun rest =>
     mret (if FileMode_IsDir m1 then "d" +:+ rest else "-" +:+ rest)) n
  = Some (permString m1, [], n)
  /\ String.length (permString m1) = 10%nat
  /\ (permString m1 = permString m2
      <-> FileMode_IsDir m1 = FileMode_IsDir m2 /\ Perm m1 = Perm m2).
Proof.
  split; [|split].
  - rewrite FileMode_String_Perm. unfold permString.
    by destruct (FileMode_IsDir m1).
  - unfold permString, rwxString.
    replace (String.length ((if FileMode_IsDir m1 then "d" else "-") +:+
               string_of_list_ascii (rwxBits (Perm m1) 8 (list_ascii_of_string "rwxrwxrwx"))))
      with (S (String.length
                 (string_of_list_ascii
                    (rwxBits (Perm m1) 8 (list_ascii_of_string "rwxrwxrwx")))))
      by (by destruct (FileMode_IsDir m1)).
    reflexivity.
  - split.
    + intros Hcol. unfold permString in Hcol.
      assert (FileMode_IsDir m1 = FileMode_IsDir m2 /\ rwxString m1 = rwxString m2)
        as [Hdir Hrwx].
      { assert (forall (c1 c2 : ascii) (a b : string),
                  String c1 EmptyString +:+ a = String c2 EmptyString +:+ b ->
                  c1 = c2 /\ a = b) as Hhead
          by (intros c1 c2 a b Heq;
              change (String c1 a = String c2 b) in Heq; by injection Heq).
        destruct (FileMode_IsDir m1), (FileMode_IsDir m2);
          apply Hhead in Hcol as [Hc Hrwx]; by try discriminate Hc. }
      split; [done|].
      apply Z.bits_inj'. intros i Hi.
      destruct (Z_lt_ge_dec i 9); [by apply rwxString_bits; [|lia]|].
      by rewrite !Perm_bits_high by lia.
    + intros [Hdir Hperm]. unfold permString, rwxString. by rewrite Hdir, Hperm.
Qed.

Lemma permission_column_shows_ten_bits_witness :
  permString (2^23 + 2^27 + 0x1ed) = permString 0x1ed.
Proof.
  apply (proj2 (proj2 (permission_column_shows_ten_bits
                         (2^23 + 2^27 + 0x1ed) 0x1ed 0%nat))).
  split; reflexivity.
Defined.

(** *** The icon in front of the name *)

Lemma iconTable_symbols :
  Forall (fun row => 0 <= len row.2 <= 5 /\ (row.2 = EmptyString -> row.1 = ".cmd"))
    iconTable.
Proof.
  apply Forall_forall. intros [ext icon] Hrow.
  assert (Forall (fun row : string * string =>
                    (len row.2 <=? 5) && ((negb (row.2 =? EmptyString)%string)
                                           || (row.1 =? ".cmd")%string) = true)
            iconTable) as Hall
    by (apply (bool_decide_unpack _); vm_compute; exact I).
  rewrite Forall_forall in Hall. specialize (Hall _ Hrow). simpl in *.
  apply andb_true_iff in Hall as [Hlen Hcmd]. split; [pose proof (len_nonneg icon); lia|].
  intros ->. simpl in Hcmd. by apply String.eqb_eq.
Qed.

Lemma getIcon_symbol (ext : string) :
  len (getIcon ext) <= 5 /\ (getIcon ext = EmptyString <-> ext = ".cmd").
Proof.
  unfold getIcon. destruct (iconMap !! ext) as [icon|] eqn:Hget.
  - pose proof Hget as Hrow. apply elem_of_list_to_map_2 in Hrow.
    pose proof iconTable_symbols as Hall. rewrite Forall_forall in Hall.
    destruct (Hall _ Hrow) as [Hlen Hcmd]. simpl in *.
    split; [lia|]. split; [done|].
    intros ->. assert (iconMap !! ".cmd" = Some EmptyString) as Hcmd' by by vm_compute.
    congruence.
  - split; [by vm_compute|]. split; [by vm_compute|].
    intros ->. by vm_compute in Hget.
Qed.

(** Every entry is shown as its name with an icon of at most five bytes in
    front, so the name can be read off the end of what is shown. The icon is
    missing for one kind of entry only: a file, not one of the exact names,
    whose extension is [.cmd] in any case of the letters, for which the
    table holds the empty string. *)
Theorem rendered_name_is_icon_then_name (entry : DirEntry) :
  exists icon,
    getFileNameWithIcon entry = icon +:+ Name entry
    /\ len icon <= 5
    /\ len (getFileNameWithIcon entry) = len icon + len (Name entry)
    /\ (icon = EmptyString
        <-> (IsDir entry = false /\ (Name entry ∉ exactNames)
             /\ ToLower (Ext (Name entry)) = ".cmd")).
Proof.
  assert (forall icon name, len (icon +:+ name) = len icon + len name) as Hlen.
  { intros icon name. unfold len. induction icon as [|c icon IH]; [done|].
    change (String c icon +:+ name) with (String c (icon +:+ name)).
    cbn [String.length]. lia. }
  destruct entry as [name [] i].
  - exists directorySymbol. simpl. split; [done|]. split; [by vm_compute|].
    split; [apply Hlen|]. split; [by vm_compute|by intros [? _]].
  - destruct (decide (name ∈ exactNames)) as [Hexact|Hother].
    + destruct (getFileNameWithIcon_exact name i Hexact) as (symbol & Hsym & ->).
      exists symbol. simpl. split; [done|].
      assert (Forall (fun symbol => len symbol <= 5 /\ symbol <> EmptyString) exactSymbols)
        as Hall by (repeat constructor; by vm_compute).
      rewrite Forall_forall in Hall. destruct (Hall _ Hsym) as [Hfive Hsome].
      split; [done|]. split; [apply Hlen|]. split; [done|]. by intros (_ & ? & _).
    + rewrite (getFileNameWithIcon_by_extension name i Hother).
      exists (getIcon (ToLower (Ext name))). simpl.
      destruct (getIcon_symbol (ToLower (Ext name))) as [Hfive Hcmd].
      split; [done|]. split; [done|]. split; [apply Hlen|].
      rewrite Hcmd. tauto.
Qed.

Lemma rendered_name_is_icon_then_name_witness :
  exists icon,
    getFileNameWithIcon (Sample.gone "build.CMD") = icon +:+ "build.CMD"
    /\ icon = EmptyString.
Proof.
  destruct (rendered_name_is_icon_then_name (Sample.gone "build.CMD"))
    as (icon & Hicon & _ & _ & Hempty).
  exists icon. split; [exact Hicon|].
  apply Hempty. split; [reflexivity|]. split; [|reflexivity].
  apply (bool_decide_unpack _). vm_compute. exact I.
Defined.

(** *** The extension *)


Lemma append_empty_r (s : string) : s +:+ EmptyString = s.
Proof.
  induction s as [|c s IH]; [done|].
  change (String c (s +:+ EmptyString) = String c s). by rewrite IH.
Qed.




(** *** The header of the long format *)

(** The header does not depend on the order of the entries nor on the
    entries whose metadata cannot be had, also when the sum of the blocks
    leaves the range of an [int64] and wraps around: directories whose
    readable entries have the same block counts in any order get the same
    header, sorting the entries leaves it as it is, and so does an entry
    more whose [Info] fails. *)
Theorem total_line_ignores_order_and_failures
    (l1 l2 : list DirEntry) (entry : DirEntry) (err : string) (n : nat) :
  (Permutation (okBlocks l1) (okBlocks l2) ->
   printTotalBlocks l1 n = printTotalBlocks l2 n)
  /\ printTotalBlocks (GoSort.Slice lessName l1) n = printTotalBlocks l1 n
  /\ (Info entry = Err err ->
      printTotalBlocks (entry :: l1) n = printTotalBlocks l1 n).
Proof.
  assert (forall a b, Permutation (okBlocks a) (okBlocks b) ->
                      printTotalBlocks a n = printTotalBlocks b n) as Hperm.
  { intros a b Hab. rewrite !printTotalBlocks_wrap.
    assert (sumBlocks a = sumBlocks b) as ->; [|done].
    unfold sumBlocks. induction Hab; simpl; lia. }
  split; [apply Hperm|]. split.
  - apply Hperm, okBlocks_perm. symmetry. apply Slice_perm.
  - intros Hinfo. apply Hperm. unfold okBlocks. cbn [omap list_omap].
    change (omap ?g (entry :: l1))
      with (match g entry with Some y => y :: omap g l1 | None => omap g l1 end).
    by rewrite Hinfo.
Qed.

Lemma total_line_ignores_order_and_failures_witness :
  printTotalBlocks (Sample.gone "draft.txt" :: Sample.scenario) 0%nat
  = printTotalBlocks Sample.scenario 0%nat.
Proof.
  apply (proj2 (proj2 (total_line_ignores_order_and_failures
                         Sample.scenario [] (Sample.gone "draft.txt")
                         "lstat draft.txt: no such file or directory" 0%nat))).
  reflexivity.
Defined.

(** *** The icons of the earlier revision *)

(** The earlier revision shows every entry with an icon: its name follows
    one code point of a private-use area and one space, whatever the name,
    so that what it adds in front is four or five bytes; the present table,
    with the empty string for [.cmd], does not keep this. *)
Theorem Legacy_rendered_name_has_an_icon (entry : DirEntry) :
  exists cp,
    Legacy.getFileNameWithIcon entry = glyph cp +:+ Name entry
    /\ ((0xe000 <=? cp) && (cp <=? 0xf8ff)) || ((0xf0000 <=? cp) && (cp <=? 0xffffd))
       = true
    /\ 4 <= len (glyph cp) <= 5.
Proof.
  unfold Legacy.getFileNameWithIcon. destruct (IsDir entry).
  { eexists. split; [reflexivity|]. by vm_compute. }
  repeat match goal with
         | |- context [if ?b then _ else _] => destruct b
         end;
    (eexists; split; [reflexivity|]; by vm_compute).
Qed.

(** ** The echo tool *)

Lemma len_append (a b : string) : len (a +:+ b) = len a + len b.
Proof.
  unfold len. induction a as [|c a IH]; [done|].
  change (String c a +:+ b) with (String c (a +:+ b)).
  cbn [String.length]. lia.
Qed.

Lemma append_assoc (a b c : string) : (a +:+ b) +:+ c = a +:+ b +:+ c.
Proof.
  apply list_ascii_of_string_inj. rewrite !list_ascii_of_string_app.
  by rewrite app_assoc.
Qed.

Lemma Join_cons (e : string) (rest : list string) (sep : string) :
  rest <> [] -> Echo.Join (e :: rest) sep = e +:+ sep +:+ Echo.Join rest sep.
Proof. by destruct rest. Qed.

Lemma Join_app (a b : list string) (sep : string) :
  a <> [] -> b <> [] ->
  Echo.Join (a ++ b) sep = Echo.Join a sep +:+ sep +:+ Echo.Join b sep.
Proof.
  intros Ha Hb. induction a as [|e a IH]; [done|].
  destruct a as [|e' a].
  - simpl app. by rewrite Join_cons.
  - change ((e :: e' :: a) ++ b) with (e :: (e' :: a) ++ b).
    rewrite !Join_cons by done. rewrite IH by done.
    by rewrite !append_assoc.
Qed.

Lemma Join_len (args : list string) (sep : string) :
  args <> [] ->
  len (Echo.Join args sep) + len sep
  = foldr (fun arg total => len arg + len sep + total) 0 args.
Proof.
  intros Hargs. induction args as [|e args IH]; [done|].
  destruct args as [|e' args].
  - simpl. lia.
  - assert (e' :: args <> []) as Hrest by done.
    revert IH Hrest. generalize (e' :: args). intros rest IH Hrest.
    rewrite Join_cons by done. cbn [foldr]. rewrite <- IH by done.
    rewrite !len_append. lia.
Qed.

(** echo writes its arguments in one piece, a single space between two of
    them and one line feed at the end, each argument as it is: the text is
    one byte longer than the arguments together for every argument, and
    the text for more arguments continues the text for fewer. It writes
    nothing at all, not even the line feed, when there is no argument, and
    ends with status 1, having written nothing, when the write fails. *)
Theorem echo_writes_its_arguments
    (WriteString : string -> Result unit) (args more : list string) :
  Echo.main WriteString [] = ([], Echo.Returned)
  /\ (args <> [] ->
      (forall text, WriteString text = Ok tt) ->
      exists text,
        Echo.main WriteString args = ([(Stdout, text +:+ nl)], Echo.Returned)
        /\ len (text +:+ nl) = foldr (fun arg total => len arg + 1 + total) 0 args
        /\ (more <> [] ->
            Echo.main WriteString (args ++ more)
            = ([(Stdout, text +:+ " " +:+ Echo.Join more " " +:+ nl)], Echo.Returned)))
  /\ (args <> [] ->
      forall err,
        WriteString (Echo.Join args " " +:+ nl) = Err err ->
        Echo.main WriteString args = ([], Echo.Exited 1)).
Proof.
  split; [done|]. split.
  - intros Hargs Hwrite. exists (Echo.Join args " "). split; [|split].
    + destruct args; [done|]. unfold Echo.main, Echo.Run. by rewrite Hwrite.
    + rewrite len_append. apply (Join_len args " " Hargs).
    + intros Hmore. destruct args as [|arg args]; [done|].
      change ((arg :: args) ++ more) with (arg :: args ++ more).
      unfold Echo.main, Echo.Run. rewrite Hwrite.
      change (arg :: args ++ more) with ((arg :: args) ++ more).
      rewrite Join_app by done. by rewrite !append_assoc.
  - intros Hargs err Hwrite. destruct args; [done|].
    unfold Echo.main, Echo.Run. by rewrite Hwrite.
Qed.

Lemma echo_writes_its_arguments_witness :
  Echo.main (fun _ => Ok tt) ["Hello"; "World"]
  = ([(Stdout, "Hello World" +:+ nl)], Echo.Returned).
Proof.
  destruct (proj1 (proj2 (echo_writes_its_arguments (fun _ => Ok tt)
                            ["Hello"] ["World"]))
              ltac:(discriminate) ltac:(reflexivity)) as (text & Hmain & _ & Hmore).
  injection Hmain as Htext. apply append_inj_l in Htext. subst text.
  apply Hmore. discriminate.
Defined.

(** ** The cat tool *)

Lemma textOn_app (s : Stream) (a b : Output) :
  textOn s (a ++ b) = textOn s a +:+ textOn s b.
Proof.
  induction a as [|[s' t] a IH]; [done|].
  change (textOn s (((s', t) :: a) ++ b))
    with (match s', s with
          | Stdout, Stdout | Stderr, Stderr => t +:+ textOn s (a ++ b)
          | _, _ => textOn s (a ++ b)
          end).
  change (textOn s ((s', t) :: a))
    with (match s', s with
          | Stdout, Stdout | Stderr, Stderr => t +:+ textOn s a
          | _, _ => textOn s a
          end).
  rewrite IH. destruct s', s; try done; by rewrite append_assoc.
Qed.

(** A loop whose body writes and neither panics nor reads the clock. *)
Lemma forEach_writes {A : Type} (xs : list A) (body : A -> M unit)
    (f : A -> Output) (n : nat) :
  (forall x, x ∈ xs -> body x n = Some (tt, f x, n)) ->
  forEach xs body n = Some (tt, flat_map f xs, n).
Proof.
  induction xs as [|x xs IH]; intros Hbody; [done|].
  simpl. unfold mbind, M_bind. rewrite (Hbody x) by left.
  rewrite IH by (intros y Hy; apply Hbody; by right). done.
Qed.

(** A loop panics when the body panics for some element. *)
Lemma forEach_panics {A : Type} (xs : list A) (body : A -> M unit) (n : nat) :
  (forall x, x ∈ xs -> body x n = None \/ exists out, body x n = Some (tt, out, n)) ->
  (forEach xs body n = None <-> Exists (fun x => body x n = None) xs)
  /\ (forEach xs body n <> None -> exists out, forEach xs body n = Some (tt, out, n)).
Proof.
  induction xs as [|x xs IH]; intros Hbody.
  - split; [|by eexists]. split; [done|]. by intros H%Exists_nil.
  - destruct IH as [IHnone IHsome]; [intros y Hy; apply Hbody; by right|].
    simpl. unfold mbind, M_bind.
    destruct (Hbody x ltac:(left)) as [Hx|[out Hx]]; rewrite Hx.
    + split; [|done]. split; [by left|done].
    + destruct (forEach xs body n) as [[[[] out'] n']|] eqn:Hrest.
      * destruct (IHsome ltac:(done)) as [out'' Heq]. injection Heq as -> ->.
        split; [|by eexists]. split; [done|].
        intros [H|H]%Exists_cons; [congruence|]. by apply IHnone in H.
      * split; [|done]. split; [|done]. intros _. right. by apply IHnone.
Qed.

(** *** The frame *)

Lemma Repeat_spec (s : string) (count : Z) (n : nat) :
  Cat.Repeat s count n
  = if count <? 0 then None else Some (Cat.copies s (Z.to_nat count), [], n).
Proof. unfold Cat.Repeat. by destruct (count <? 0). Qed.

Lemma printHeader_spec (width : Z) (name : string) (n : nat) :
  Cat.printHeader width name n
  = if width <? 8 then None
    else Some (tt, [(Stdout, CatSpec.headerText width name)], n).
Proof.
  unfold Cat.printHeader, mbind, M_bind. rewrite (Repeat_spec _ 7).
  change (7 <? 0) with false. cbv beta iota. rewrite (Repeat_spec _ (width - 8)).
  destruct (Z.ltb_spec (width - 8) 0), (Z.ltb_spec width 8); try lia; [done|].
  cbv beta iota. rewrite (Repeat_spec _ 7). change (7 <? 0) with false. cbv beta iota.
  rewrite (Repeat_spec _ 7). change (7 <? 0) with false. cbv beta iota.
  rewrite (Repeat_spec _ (width - 8)).
  destruct (Z.ltb_spec (width - 8) 0); [lia|].
  reflexivity.
Qed.

Lemma printFooter_spec (width : Z) (n : nat) :
  Cat.printFooter width n
  = if width <? 8 then None
    else Some (tt, [(Stdout, CatSpec.footerText width)], n).
Proof.
  unfold Cat.printFooter, mbind, M_bind. rewrite (Repeat_spec _ 7).
  change (7 <? 0) with false. cbv beta iota. rewrite (Repeat_spec _ (width - 8)).
  destruct (Z.ltb_spec (width - 8) 0), (Z.ltb_spec width 8); try lia; [done|].
  reflexivity.
Qed.

(** *** Without line numbers *)

Lemma forEach_plain (lines : list string) (n : nat) :
  forEach lines (fun line => write Stdout (line +:+ nl)) n
  = Some (tt, (fun line => (Stdout, line +:+ nl)) <$> lines, n).
Proof.
  rewrite (forEach_writes lines _ (fun line => [(Stdout, line +:+ nl)])) by done.
  reflexivity.
Qed.

Lemma printFromReader_plain (width : Z) (reader : Cat.File) (n : nat) :
  Cat.printFromReader width reader false n
  = Some (tt, CatSpec.plainWrites reader, n).
Proof.
  unfold Cat.printFromReader, mbind, M_bind. cbn [mret M_ret].
  rewrite forEach_plain.
  unfold CatSpec.plainWrites, CatSpec.scanErrWrites.
  by destruct (Cat.ScanErr reader).
Qed.

Lemma joinText_app (a b : list string) :
  CatSpec.joinText (a ++ b) = CatSpec.joinText a +:+ CatSpec.joinText b.
Proof.
  induction a as [|text a IH]; [done|].
  change (text +:+ CatSpec.joinText (a ++ b)
          = (text +:+ CatSpec.joinText a) +:+ CatSpec.joinText b).
  by rewrite IH, append_assoc.
Qed.

Lemma textOn_plainWrites (reader : Cat.File) :
  textOn Stdout (CatSpec.plainWrites reader)
  = CatSpec.joinText ((fun line => line +:+ nl) <$> Cat.Lines reader).
Proof.
  unfold CatSpec.plainWrites. rewrite textOn_app.
  assert (textOn Stdout (CatSpec.scanErrWrites reader) = EmptyString) as ->
    by (unfold CatSpec.scanErrWrites; by destruct (Cat.ScanErr reader)).
  rewrite append_empty_r.
  induction (Cat.Lines reader) as [|line lines IH]; [done|].
  change ((line +:+ nl) +:+ textOn Stdout ((fun line => (Stdout, line +:+ nl)) <$> lines)
          = (line +:+ nl) +:+ CatSpec.joinText ((fun line => line +:+ nl) <$> lines)).
  by rewrite IH.
Qed.

(** Without line numbers cat copies the lines of what it reads to standard
    output, a line feed after each, whatever the width of the terminal and
    without fail: standard input when no file is named, else the named
    files in order, where a file that cannot be opened, or whose reading
    fails, costs one diagnostic on standard error and leaves the lines of
    the other files as they are. But when the size of the terminal cannot
    be had, which is so whenever standard output is not a terminal, cat
    reads nothing and prints the diagnostic alone, with or without line
    numbers. *)
Theorem cat_copies_the_lines
    (w : Cat.World) (files : list string) (n : nat) :
  (forall err lineNumbers,
     Cat.GetSize w = Err err ->
     Cat.Run w lineNumbers files n
     = Some (tt, [(Stderr, "cat: error getting terminal size: " +:+ err +:+ nl)], n))
  /\ (forall width,
        Cat.GetSize w = Ok width ->
        exists out,
          Cat.Run w false files n = Some (tt, out, n)
          /\ out = match files with
                   | [] => CatSpec.plainWrites (Cat.Stdin w)
                   | _ :: _ => flat_map (CatSpec.fileWrites w) files
                   end
          /\ textOn Stdout out
             = CatSpec.joinText
                 ((fun line => line +:+ nl)
                    <$> flat_map Cat.Lines (CatSpec.readers w files))).
Proof.
  split.
  - intros err lineNumbers Hsize. unfold Cat.Run. by rewrite Hsize.
  - intros width Hsize. eexists. split; [|split; [reflexivity|]].
    + unfold Cat.Run. rewrite Hsize. destruct files as [|file files].
      * apply printFromReader_plain.
      * apply forEach_writes. intros name _.
        unfold Cat.printFile, CatSpec.fileWrites, mbind, M_bind.
        destruct (Cat.Open w name) as [reader|err]; [|done].
        rewrite printFromReader_plain. cbn [mret M_ret].
        by rewrite !app_nil_r.
    + destruct files as [|file files].
      * rewrite textOn_plainWrites. simpl. by rewrite app_nil_r.
      * unfold CatSpec.readers. generalize (file :: files). clear file files.
        intros files. induction files as [|name files IH]; [done|].
        cbn [flat_map]. rewrite textOn_app, IH.
        change (omap ?g (name :: files))
          with (match g name with Some y => y :: omap g files | None => omap g files end).
        unfold CatSpec.fileWrites at 1.
        destruct (Cat.Open w name) as [reader|err].
        -- rewrite textOn_plainWrites. cbn [flat_map]. rewrite fmap_app.
           by rewrite joinText_app.
        -- reflexivity.
Qed.

Lemma cat_copies_the_lines_witness :
  exists out,
    Cat.Run (CatSample.world (Ok 0)) false ["missing"; "notes.txt"] 0%nat
    = Some (tt, out, 0%nat)
    /\ textOn Stdout out
       = "first" +:+ nl +:+ nl +:+ "third line" +:+ nl.
Proof.
  destruct (proj2 (cat_copies_the_lines (CatSample.world (Ok 0))
                     ["missing"; "notes.txt"] 0%nat) 0 eq_refl)
    as (out & Hrun & _ & Htext).
  exists out. split; [exact Hrun|exact Htext].
Defined.

(** *** With line numbers *)

Lemma rangeFrom_index (bs : list Z) (skip : nat) (i : Z) :
  Forall (fun it : Z * string => i <= it.1 < i + Z.of_nat (length bs))
    (Cat.rangeFrom skip i bs).
Proof.
  revert skip i. induction bs as [|c rest IH]; intros skip i; [constructor|].
  assert (forall k,
            Forall (fun it : Z * string =>
                      i <= it.1 < i + Z.of_nat (length (c :: rest)))
              (Cat.rangeFrom k (i + 1) rest)) as Hrest.
  { intros k. eapply Forall_impl; [apply (IH k (i + 1))|].
    intros it Hit. simpl in *. lia. }
  destruct skip as [|skip]; cbn [Cat.rangeFrom]; [|apply Hrest].
  constructor; [simpl; lia|apply Hrest].
Qed.

Lemma rangeString_nil (line : string) :
  Cat.rangeString line = [] <-> line = EmptyString.
Proof. destruct line; [done|]. split; [|done]. by intros [=]. Qed.

Lemma rangeString_first (line : string) :
  line <> EmptyString -> exists t rest, Cat.rangeString line = (0, t) :: rest.
Proof. destruct line; [done|]. intros _. by eexists _, _. Qed.

(** One rune: with a terminal of nine columns the remainder has no
    divisor; with any other width the rune goes to standard error, after a
    line feed there and the margin on standard output when the line is
    continued. *)
Lemma printRune_spec (width : Z) (it : Z * string) (n : nat) :
  Cat.printRune width it n
  = if width =? 9 then None
    else Some (tt,
               (if (Z.rem it.1 (width - 9) =? 0) && negb (it.1 =? 0)
                then [(Stderr, nl); (Stdout, spaces 7 +:+ Cat.vertical +:+ " ")]
                else []) ++ [(Stderr, it.2)],
               n).
Proof.
  unfold Cat.printRune, mbind, M_bind, goRem, panic.
  destruct (Z.eqb_spec (width - 9) 0), (Z.eqb_spec width 9); try lia; [done|].
  cbn [mret M_ret]. by destruct ((Z.rem it.1 (width - 9) =? 0) && negb (it.1 =? 0)).
Qed.

(** The runes of a line on a terminal that is not nine columns wide. When
    the line is no longer than the text column, none of them starts a new
    row, and all go to standard error. *)
Lemma forEach_printRune (width : Z) (line : string) (n : nat) :
  width <> 9 ->
  exists out,
    forEach (Cat.rangeString line) (Cat.printRune width) n = Some (tt, out, n)
    /\ (10 <= width -> len line <= width - 9 ->
        textOn Stdout out = EmptyString
        /\ textOn Stderr out = CatSpec.decoded line).
Proof.
  intros Hwidth. eexists. split.
  - apply forEach_writes. intros it _. rewrite printRune_spec.
    by destruct (Z.eqb_spec width 9).
  - intros Hwide Hshort. unfold CatSpec.decoded, Cat.rangeString.
    pose proof (rangeFrom_index (code <$> list_ascii_of_string line) 0 0) as Hindex.
    rewrite length_fmap in Hindex.
    assert (Z.of_nat (length (list_ascii_of_string line)) = len line) as Hlen.
    { unfold len. f_equal. clear. induction line as [|c line IH]; simpl; congruence. }
    rewrite Hlen in Hindex. clear Hlen.
    induction Hindex as [|[i t] its Hi _ IH]; [done|].
    cbn [flat_map fst snd]. rewrite !textOn_app, !(proj1 IH), !(proj2 IH). clear IH.
    simpl in Hi.
    assert ((Z.rem i (width - 9) =? 0) && negb (i =? 0) = false) as ->.
    { destruct (Z.eqb_spec i 0) as [->|Hnz]; [by rewrite andb_false_r|].
      rewrite Z.rem_small by lia. rewrite andb_true_r. apply Z.eqb_neq. lia. }
    split; [reflexivity|].
    change ((t +:+ EmptyString) +:+ CatSpec.joinText its.*2 = t +:+ CatSpec.joinText its.*2).
    by rewrite append_empty_r.
Qed.

(** A non-empty line on a terminal of nine columns. *)
Lemma forEach_printRune_nine (line : string) (n : nat) :
  forEach (Cat.rangeString line) (Cat.printRune 9) n
  = if (line =? EmptyString)%string then Some (tt, [], n) else None.
Proof.
  destruct (String.eqb_spec line EmptyString) as [->|Hline]; [done|].
  destruct (rangeString_first line Hline) as (t & rest & ->).
  cbn [forEach]. unfold mbind, M_bind. by rewrite printRune_spec.
Qed.

Lemma printNumbered_ok (width : Z) (lines : list string) (lineCounter : Z) (n : nat) :
  width <> 9 ->
  exists out,
    Cat.printNumbered width lineCounter lines n = Some (tt, out, n)
    /\ (10 <= width -> Forall (fun line => len line <= width - 9) lines ->
        textOn Stdout out = CatSpec.numberColumn lineCounter (length lines)
        /\ textOn Stderr out = CatSpec.joinText (CatSpec.decoded <$> lines)).
Proof.
  intros Hwidth. revert lineCounter.
  induction lines as [|line lines IH]; intros lineCounter.
  - exists []. split; [done|]. by intros _ _.
  - destruct (forEach_printRune width line n Hwidth) as (runes & Hrunes & Htext).
    destruct (IH (wrap64 (lineCounter + 1))) as (rest & Hrest & Htexts).
    exists ([(Stdout, padLeft 6 (itoa lineCounter) +:+ " " +:+ Cat.vertical +:+ " ")]
            ++ runes ++ [(Stdout, nl)] ++ rest).
    split.
    + cbn [Cat.printNumbered]. unfold mbind, M_bind.
      change (write Stdout ?t n) with (Some (tt, [(Stdout, t)], n)). cbv beta iota.
      rewrite Hrunes.
      change (write Stdout nl n) with (Some (tt, [(Stdout, nl)], n)). cbv beta iota.
      by rewrite Hrest.
    + intros Hwide Hshort. apply Forall_cons in Hshort as [Hline Hlines].
      destruct (Htext Hwide Hline) as [Hout Herr].
      destruct (Htexts Hwide Hlines) as [Houts Herrs].
      rewrite !textOn_app, Hout, Herr, Houts, Herrs. split.
      * cbn [length CatSpec.numberColumn].
        change (textOn Stdout [(Stdout, ?t)]) with (t +:+ EmptyString).
        rewrite !append_empty_r. cbn [String.append].
        by rewrite !append_assoc.
      * reflexivity.
Qed.

Lemma printNumbered_nine (lines : list string) (lineCounter : Z) (n : nat) :
  (Exists (fun line => line <> EmptyString) lines ->
   Cat.printNumbered 9 lineCounter lines n = None)
  /\ (Forall (fun line => line = EmptyString) lines ->
      exists out, Cat.printNumbered 9 lineCounter lines n = Some (tt, out, n)).
Proof.
  revert lineCounter. induction lines as [|line lines IH]; intros lineCounter.
  - split; [by intros H%Exists_nil|]. intros _. by exists [].
  - destruct (IH (wrap64 (lineCounter + 1))) as [IHnone IHsome].
    cbn [Cat.printNumbered]. unfold mbind, M_bind.
    change (write Stdout ?t n) with (Some (tt, [(Stdout, t)], n)). cbv beta iota.
    rewrite forEach_printRune_nine.
    destruct (String.eqb_spec line EmptyString) as [->|Hline].
    + change (write Stdout nl n) with (Some (tt, [(Stdout, nl)], n)). cbv beta iota.
      split.
      * intros [Hne|Hex]%Exists_cons; [done|]. by rewrite (IHnone Hex).
      * intros [_ Hall]%Forall_cons. destruct (IHsome Hall) as [out ->]. by eexists.
    + split; [done|]. by intros [? _]%Forall_cons.
Qed.

(** The frame and the lines of one file. *)
Lemma printFromReader_numbered (width : Z) (reader : Cat.File) (n : nat) :
  (Cat.printFromReader width reader true n = None
   <-> width < 8
       \/ (width = 9 /\ Exists (fun line => line <> EmptyString) (Cat.Lines reader)))
  /\ (Cat.printFromReader width reader true n <> None ->
      exists out, Cat.printFromReader width reader true n = Some (tt, out, n)).
Proof.
  unfold Cat.printFromReader, mbind, M_bind.
  rewrite printHeader_spec.
  destruct (Z.ltb_spec width 8) as [Hnarrow|Hwide].
  { split; [|done]. split; [by left|done]. }
  cbv beta iota.
  assert (Cat.printFooter width n
          = Some (tt, [(Stdout, CatSpec.footerText width)], n)) as Hfooter.
  { rewrite printFooter_spec. by destruct (Z.ltb_spec width 8); [lia|]. }
  destruct (Z.eq_dec width 9) as [->|Hnine].
  - destruct (printNumbered_nine (Cat.Lines reader) 1 n) as [Hnone Hsome].
    destruct (decide (Exists (fun line => line <> EmptyString) (Cat.Lines reader)))
      as [Hex|Hall].
    + rewrite (Hnone Hex). split; [|done]. split; [right; by split|done].
    + assert (Forall (fun line => line = EmptyString) (Cat.Lines reader)) as Hempty.
      { apply Forall_forall. intros line Hline.
        destruct (String.eqb_spec line EmptyString) as [|Hne]; [done|].
        destruct Hall. apply Exists_exists. by exists line. }
      destruct (Hsome Hempty) as [out ->]. cbv beta iota. rewrite Hfooter.
      unfold write, mret, M_ret.
      destruct (Cat.ScanErr reader); cbv beta iota; (split; [|by eexists]);
        (split; [done|]); (intros [?|[_ ?]]; [lia|done]).
  - destruct (printNumbered_ok width (Cat.Lines reader) 1 n Hnine) as (out & -> & _).
    cbv beta iota. rewrite Hfooter. unfold write, mret, M_ret.
    destruct (Cat.ScanErr reader); cbv beta iota; (split; [|by eexists]);
      (split; [done|]); (intros [?|[? _]]; lia).
Qed.

Lemma byte_code (c : ascii) : byte (code c) = c.
Proof. unfold byte, code. rewrite N2Z.id. apply ascii_N_embedding. Qed.

(** The loop over the runes spells an ASCII line as it is. *)
Lemma decoded_ascii (line : string) :
  Forall (fun c => code c < 0x80) (list_ascii_of_string line) ->
  CatSpec.decoded line = line.
Proof.
  unfold CatSpec.decoded, Cat.rangeString. generalize 0.
  induction line as [|c line IH]; intros i Hascii; [done|].
  apply Forall_cons in Hascii as [Hc Hline].
  change (code <$> list_ascii_of_string (String c line))
    with (code c :: (code <$> list_ascii_of_string line)).
  cbn [Cat.rangeFrom].
  assert (runeSize (code c :: (code <$> list_ascii_of_string line)) = 1%nat) as ->.
  { unfold runeSize. by destruct (Z.ltb_spec (code c) 0xC2); [|lia]. }
  destruct (Z.leb_spec 0x80 (code c)); [lia|].
  cbn [Nat.eqb andb Nat.pred take fmap list_fmap snd CatSpec.joinText foldr].
  change (CatSpec.joinText ?x) with (foldr String.append EmptyString x) in IH.
  rewrite (IH (i + 1) Hline).
  unfold bytes. cbn [fmap list_fmap string_of_list_ascii]. by rewrite byte_code.
Qed.

(** With line numbers cat panics on a narrow terminal: before it prints
    anything of a file when the terminal is less than eight columns wide,
    the frame having a negative count of dashes to repeat, and at the first
    byte of the first line that is not empty when the terminal is nine
    columns wide, the row length it divides by being zero. It panics at the
    first file it reads that meets one of the two, and with any other width
    it ends without fail. *)
Theorem cat_numbering_panics_on_narrow_terminals
    (w : Cat.World) (files : list string) (width : Z) (n : nat) :
  Cat.GetSize w = Ok width ->
  (Cat.Run w true files n = None
   <-> Exists (fun reader =>
                 width < 8
                 \/ (width = 9
                     /\ Exists (fun line => line <> EmptyString) (Cat.Lines reader)))
         (CatSpec.readers w files))
  /\ (Cat.Run w true files n <> None ->
      exists out, Cat.Run w true files n = Some (tt, out, n)).
Proof.
  intros Hsize. unfold Cat.Run. rewrite Hsize.
  destruct files as [|file files].
  - destruct (printFromReader_numbered width (Cat.Stdin w) n) as [Hnone Hsome].
    split; [|done]. rewrite Hnone. unfold CatSpec.readers.
    rewrite Exists_cons, Exists_nil. tauto.
  - unfold CatSpec.readers. generalize (file :: files). clear file files. intros files.
    set (body := fun file : string =>
                   Cat.printFile w width file true ≫= fun err =>
                   match err with
                   | Some err => write Stderr ("cat: " +:+ err +:+ nl)
                   | None => mret tt
                   end).
    assert (forall name,
              (body name n = None
               <-> exists reader,
                     Cat.Open w name = Ok reader
                     /\ (width < 8
                         \/ (width = 9
                             /\ Exists (fun line => line <> EmptyString)
                                  (Cat.Lines reader))))
              /\ (body name n <> None -> exists out, body name n = Some (tt, out, n)))
      as Hbody.
    { intros name. unfold body, Cat.printFile, mbind, M_bind.
      destruct (Cat.Open w name) as [reader|err].
      - destruct (printFromReader_numbered width reader n) as [Hnone Hsome].
        destruct (Cat.printFromReader width reader true n) as [[[[] out] n']|].
        + destruct (Hsome ltac:(done)) as [out' Heq]. injection Heq as -> ->.
          split; [|by eexists]. split; [done|].
          intros (reader' & [= <-] & Hpanic). by apply Hnone in Hpanic.
        + split; [|done]. split; [|done]. intros _. exists reader. split; [done|].
          by apply Hnone.
      - split; [|by eexists]. split; [done|]. by intros (reader & [=] & _). }
    destruct (forEach_panics files body n) as [Hnone Hsome].
    { intros name _. destruct (Hbody name) as [_ Hok].
      destruct (body name n) as [r|]; [right; by apply Hok|by left]. }
    split; [|done]. rewrite Hnone. clear Hnone Hsome.
    induction files as [|name files IH].
    + split; by intros H%Exists_nil.
    + change (omap ?g (name :: files))
        with (match g name with Some y => y :: omap g files | None => omap g files end).
      rewrite Exists_cons, (proj1 (Hbody name)), IH.
      destruct (Cat.Open w name) as [reader|err].
      * rewrite Exists_cons. split.
        -- intros [(reader' & [= <-] & Hpanic)|Hrest]; [by left|by right].
        -- intros [Hpanic|Hrest]; [left; by exists reader|by right].
      * split; [intros [(reader & [=] & _)|Hrest]; done|by right].
Qed.

Lemma cat_numbering_panics_on_narrow_terminals_witness :
  Cat.Run (CatSample.world (Ok 9)) true ["notes.txt"] 0%nat = None.
Proof.
  apply (proj1 (cat_numbering_panics_on_narrow_terminals
                  (CatSample.world (Ok 9)) ["notes.txt"] 9 0%nat eq_refl)).
  left. right. split; [reflexivity|]. by left.
Defined.

(** With line numbers, on a terminal of ten columns or more and with lines
    no longer than the text column, cat puts the frame and the line numbers
    on standard output and the text of the file on standard error: standard
    output holds the header, one numbered and otherwise empty line for each
    line of the file and the closing line, and nothing of what the file
    says; standard error holds the lines as the loop over their runes
    spells them, which for ASCII lines is the lines themselves, one after
    the other with no line feed between. *)
Theorem cat_numbering_sends_the_text_to_stderr
    (width : Z) (reader : Cat.File) (n : nat) :
  10 <= width ->
  Forall (fun line => len line <= width - 9) (Cat.Lines reader) ->
  exists out,
    Cat.printFromReader width reader true n = Some (tt, out, n)
    /\ textOn Stdout out
       = CatSpec.headerText width (Cat.FName reader)
         +:+ CatSpec.numberColumn 1 (length (Cat.Lines reader))
         +:+ CatSpec.footerText width
    /\ textOn Stderr out
       = CatSpec.joinText (CatSpec.decoded <$> Cat.Lines reader)
         +:+ textOn Stderr (CatSpec.scanErrWrites reader)
    /\ (Forall (fun line => Forall (fun c => code c < 0x80) (list_ascii_of_string line))
          (Cat.Lines reader) ->
        textOn Stderr out
        = CatSpec.joinText (Cat.Lines reader)
          +:+ textOn Stderr (CatSpec.scanErrWrites reader)).
Proof.
  intros Hwide Hshort.
  destruct (printNumbered_ok width (Cat.Lines reader) 1 n ltac:(lia))
    as (lines & Hlines & Htext).
  destruct (Htext Hwide Hshort) as [Hout Herr].
  exists ([(Stdout, CatSpec.headerText width (Cat.FName reader))]
          ++ (lines ++ [(Stdout, CatSpec.footerText width)])
          ++ CatSpec.scanErrWrites reader).
  assert (textOn Stderr
            ([(Stdout, CatSpec.headerText width (Cat.FName reader))]
             ++ (lines ++ [(Stdout, CatSpec.footerText width)])
             ++ CatSpec.scanErrWrites reader)
          = CatSpec.joinText (CatSpec.decoded <$> Cat.Lines reader)
            +:+ textOn Stderr (CatSpec.scanErrWrites reader)) as Hstderr.
  { rewrite !textOn_app, Herr.
    change (textOn Stderr [(Stdout, ?t)]) with EmptyString.
    by rewrite append_empty_r. }
  split; [|split; [|split; [exact Hstderr|]]].
  - unfold Cat.printFromReader, mbind, M_bind.
    rewrite printHeader_spec. destruct (Z.ltb_spec width 8); [lia|].
    cbv beta iota. rewrite Hlines. cbv beta iota.
    rewrite printFooter_spec. destruct (Z.ltb_spec width 8); [lia|].
    unfold CatSpec.scanErrWrites, write, mret, M_ret.
    by destruct (Cat.ScanErr reader).
  - rewrite !textOn_app, Hout.
    assert (textOn Stdout (CatSpec.scanErrWrites reader) = EmptyString) as ->
      by (unfold CatSpec.scanErrWrites; by destruct (Cat.ScanErr reader)).
    change (textOn Stdout [(Stdout, ?t)]) with (t +:+ EmptyString).
    by rewrite !append_empty_r.
  - intros Hascii. rewrite Hstderr. f_equal. f_equal.
    clear -Hascii. induction Hascii as [|line lines Hline _ IH]; [done|].
    cbn [fmap list_fmap]. by rewrite (decoded_ascii line Hline), IH.
Qed.

Lemma cat_numbering_sends_the_text_to_stderr_witness :
  exists out,
    Cat.printFromReader 40 CatSample.notes true 0%nat = Some (tt, out, 0%nat)
    /\ textOn Stderr out = "firstthird line".
Proof.
  destruct (cat_numbering_sends_the_text_to_stderr 40 CatSample.notes 0%nat
              ltac:(lia) ltac:(repeat constructor; vm_compute; discriminate))
    as (out & Hrun & _ & _ & Hascii).
  exists out. split; [exact Hrun|].
  apply Hascii. repeat constructor; vm_compute; reflexivity.
Defined.
